(** * Workflow projection of [src/App.vue]

    A shallow embedding of the script of [App.vue]: the on-chain reads of
    [readOnchainData], the two index loops that fill the [nodes] and [edges]
    arrays, the role classification of [adjustView] and the [onInit] hook that
    fits the view.

    Conventions.
    - JavaScript numbers and bigints that the script handles are counters and
      decoded unsigned integers; they are modelled by [Z].  [Number(states)]
      is the identity on them (exact below 2^53).
    - The ledger client is an oracle: a record giving, for each request the
      script can issue, how the promise of [client.readContract] settles.  The
      script reads every index at most once, so a function of the index
      describes all the answers a run can observe.
    - The script is asynchronous but single threaded; a run is modelled in the
      order in which its callbacks execute, in a state-and-rejection monad
      over the store: the arrays [nodes] and [edges] of the script, the nodes
      that the rendering library holds, and the calls to [fitView].
    - The script passes [nodes] to the rendering library as a property and
      calls the library's [updateNode].  The library works on nodes of its
      own, which follow the array only when the script yields (at an
      [await], and when it ends): [flowNodes] is that copy, and it is the
      one that carries the types shown. *)

From Stdlib Require Import ZArith List String Ascii Bool Lia.
From Stdlib Require Import DecimalString DecimalZ.
Import ListNotations.

Local Open Scope string_scope.
Local Open Scope Z_scope.

(** ** Values *)

(** What the client decodes from a contract answer: booleans, numbers (small
    unsigned integers), bigints and strings (text, addresses, byte strings). *)
Inductive JsValue : Type :=
| JBoolean (b : bool)
| JNumber (n : Z)
| JBigInt (n : Z)
| JString (s : string).

(** [n.toString()] for an integral number or a bigint: its decimal notation. *)
Definition Number_toString (n : Z) : string :=
  NilEmpty.string_of_int (Z.to_int n).

(** [v.toString()]. *)
Definition toString (v : JsValue) : string :=
  match v with
  | JBoolean true => "true"
  | JBoolean false => "false"
  | JNumber n => Number_toString n
  | JBigInt n => Number_toString n
  | JString s => s
  end.

(** [Boolean(v)]: the truthiness of a value. *)
Definition Boolean (v : JsValue) : bool :=
  match v with
  | JBoolean b => b
  | JNumber n => negb (n =? 0)
  | JBigInt n => negb (n =? 0)
  | JString s => negb (s =? "")%string
  end.

(** Modelled from the spec: the contract interface [WORKFLOW_ABI]
    (assets/abi/WORKFLOW_ABI) is not among the sources.  The spec describes
    the answer of [states(i)] as a tuple whose first element is the label
    and the answer of [transitions(i)] as a raw 4-tuple (label, source,
    target, flag).  The client decodes answers by that interface, so a
    fulfilled read always has this shape. *)
Record StateTuple : Type := mkStateTuple {
  state_0 : JsValue;
  state_rest : list JsValue
}.

Record TransitionTuple : Type := mkTransitionTuple {
  transition_0 : JsValue;
  transition_1 : JsValue;
  transition_2 : JsValue;
  transition_3 : JsValue
}.

(** ** Promises and the ledger client *)

Inductive Settled (A : Type) : Type :=
| Fulfilled (a : A)
| Rejected (reason : string).
Arguments Fulfilled {A} a.
Arguments Rejected {A} reason.

Definition isFulfilled {A} (p : Settled A) : bool :=
  match p with Fulfilled _ => true | Rejected _ => false end.

(** The four [client.readContract] requests of the script. *)
Record Client : Type := mkClient {
  read_stateIndex : Settled Z;
  read_transitionIndex : Settled Z;
  read_states : Z -> Settled StateTuple;
  read_transitions : Z -> Settled TransitionTuple
}.

(** ** The graph store *)

Record Position : Type := mkPosition { pos_x : Z; pos_y : Z }.

(** A node, as an element of [nodes.value] and as the rendering library
    holds it; [node_type] is absent until [updateNode] sets it, which it does
    on the nodes of the library only. *)
Record Node : Type := mkNode {
  node_id : string;
  node_label : string;
  node_position : Position;
  node_class : string;
  node_type : option string
}.

Inductive MarkerType : Type := Arrow | ArrowClosed.

(** An element of [edges.value]. *)
Record Edge : Type := mkEdge {
  edge_id : Z;
  edge_label : JsValue;
  edge_source : string;
  edge_target : string;
  edge_animated : bool;
  edge_markerEnd : MarkerType
}.

(** [nodes] and [edges] are the arrays of the script ([nodes.value],
    [edges.value]); [flowNodes] are the nodes held by the rendering library
    ([useVueFlow()]), which [updateNode] writes to. *)
Record Store : Type := mkStore {
  nodes : list Node;
  edges : list Edge;
  fitViewCalls : nat;
  flowNodes : list Node
}.

(** [const nodes = ref([])], [const edges = ref([])]. *)
Definition emptyStore : Store := mkStore [] [] 0 [].

Definition set_flowNodes (l : list Node) (s : Store) : Store :=
  mkStore (nodes s) (edges s) (fitViewCalls s) l.

(** The rendering library following the [nodes] property: it keeps the
    nodes it holds, with the types it gave them, and takes in the elements
    of the array that it does not hold yet.  This happens when the script
    yields, not at the [push] itself. *)
Definition receiveNodes (held array : list Node) : list Node :=
  (held ++ skipn (List.length held) array)%list.

Definition receive (s : Store) : Store :=
  set_flowNodes (receiveNodes (flowNodes s) (nodes s)) s.

Definition set_type (ty : string) (n : Node) : Node :=
  mkNode (node_id n) (node_label n) (node_position n) (node_class n) (Some ty).

(** ** Asynchronous computations over the store *)

Definition Async (A : Type) : Type := Store -> Settled A * Store.

Definition ret {A} (a : A) : Async A := fun s => (Fulfilled a, s).

Definition bind {A B} (m : Async A) (f : A -> Async B) : Async B :=
  fun s =>
    match m s with
    | (Fulfilled a, s') => f a s'
    | (Rejected r, s') => (Rejected r, s')
    end.

Notation "x <- m ;; k" := (bind m (fun x => k))
  (at level 61, m at next level, right associativity).
Notation "m ;;; k" := (bind m (fun _ => k))
  (at level 61, right associativity).

(** [await p]: the script yields, so the library receives the nodes pushed
    so far; then the script resumes with the value of a fulfilled promise, or
    throws the reason of a rejected one. *)
Definition await {A} (p : Settled A) : Async A := fun s => (p, receive s).

(** [nodes.value.push(n)], [edges.value.push(e)]. *)
Definition pushNode (n : Node) : Async unit :=
  fun s => (Fulfilled tt,
            mkStore (nodes s ++ [n])%list (edges s) (fitViewCalls s)
                    (flowNodes s)).

Definition pushEdge (e : Edge) : Async unit :=
  fun s => (Fulfilled tt,
            mkStore (nodes s) (edges s ++ [e])%list (fitViewCalls s)
                    (flowNodes s)).

(** [vueFlowInstance.fitView()]. *)
Definition fitView (s : Store) : Store :=
  mkStore (nodes s) (edges s) (S (fitViewCalls s)) (flowNodes s).

(** [for (let i = from; i < bound; i++) body]: [iterate] runs a given number
    of rounds, [for_loop] runs the [bound - from] rounds the loop makes (none
    when [bound <= from]).  [acc] carries the local variables that the body
    assigns. *)
Fixpoint iterate {A} (rounds : nat) (i : Z) (body : Z -> A -> Async A) (acc : A)
  : Async A :=
  match rounds with
  | O => ret acc
  | S rounds' => acc' <- body i acc ;; iterate rounds' (i + 1) body acc'
  end.

Definition for_loop {A} (from bound : Z) (body : Z -> A -> Async A) (acc : A)
  : Async A :=
  iterate (Z.to_nat (bound - from)) from body acc.

(** ** [adjustView] *)

(** [updateNode(id, { type })] of the rendering library: look the node up by
    id among the nodes that the library holds and assign the given fields to
    it; nothing happens when the library holds no node of that id.  The
    lookup returns the first node with the id. *)
Fixpoint updateNode_list (id ty : string) (l : list Node) : list Node :=
  match l with
  | [] => []
  | n :: rest =>
      if (node_id n =? id)%string then set_type ty n :: rest
      else n :: updateNode_list id ty rest
  end.

Definition updateNode (id ty : string) (s : Store) : Store :=
  set_flowNodes (updateNode_list id ty (flowNodes s)) s.

(** [nodes.value.forEach(callback)], over the array of the script: the
    length is read once, then the element at each index is read from the
    live array and passed on. *)
Fixpoint forEach_from (callback : Node -> Store -> Store) (k rounds : nat)
  (s : Store) : Store :=
  match rounds with
  | O => s
  | S rounds' =>
      match nth_error (nodes s) k with
      | Some node => forEach_from callback (S k) rounds' (callback node s)
      | None => forEach_from callback (S k) rounds' s
      end
  end.

Definition forEach (callback : Node -> Store -> Store) (s : Store) : Store :=
  forEach_from callback 0 (List.length (nodes s)) s.

(** The callback of [adjustView]: a node that is the source of no edge
    becomes an output. *)
Definition markOutput (node : Node) (s : Store) : Store :=
  match find (fun edge => (edge_source edge =? node_id node)%string) (edges s) with
  | Some _ => s
  | None => updateNode (node_id node) "output" s
  end.

Definition adjustView (s : Store) : Store :=
  forEach markOutput (updateNode "1" "input" s).

(** ** [readOnchainData] and [onInit] *)

(** The node pushed for [stateIndex], [yPos] being already incremented. *)
Definition makeNode (stateIndex : Z) (state : StateTuple) (xPos yPos : Z) : Node :=
  {| node_id := Number_toString stateIndex;
     node_label := toString (state_0 state);
     node_position := mkPosition xPos yPos;
     node_class := "light";
     node_type := None |}.

(** The edge pushed for [transitionIndex]. *)
Definition makeEdge (transitionIndex : Z) (transition : TransitionTuple) : Edge :=
  {| edge_id := transitionIndex;
     edge_label := transition_0 transition;
     edge_source := toString (transition_1 transition);
     edge_target := toString (transition_2 transition);
     edge_animated := Boolean (transition_3 transition);
     edge_markerEnd := ArrowClosed |}.

Definition xPos : Z := 250.

Definition statesBody (client : Client) (stateIndex yPos : Z) : Async Z :=
  state <- await (read_states client stateIndex) ;;
  let yPos := yPos + 100 in
  pushNode (makeNode stateIndex state xPos yPos) ;;;
  ret yPos.

Definition transitionsBody (client : Client) (transitionIndex : Z) (_ : unit)
  : Async unit :=
  transition <- await (read_transitions client transitionIndex) ;;
  pushEdge (makeEdge transitionIndex transition).

(** The [async (transitions) => { ... }] callback: the two loops, then
    [adjustView()]. *)
Definition project (client : Client) (states transitions : Z) : Async unit :=
  for_loop 1 states (statesBody client) 50 ;;;
  for_loop 1 transitions (transitionsBody client) tt ;;;
  (fun s => (Fulfilled tt, adjustView s)).

(** [readOnchainData()].  The callback of the first [then] starts the
    [transitionIndex] read and the chain that follows it, but does not return
    that chain: the promise that [readOnchainData] returns settles with the
    [stateIndex] read alone.  The result is that promise, together with the
    chain left running. *)
Definition readOnchainData (client : Client) : Settled unit * Async unit :=
  match read_stateIndex client with
  | Rejected r => (Rejected r, ret tt)
  | Fulfilled states =>
      (Fulfilled tt,
       transitions <- await (read_transitionIndex client) ;;
       project client states transitions)
  end.

(** [onInit]: [readOnchainData().then(() => vueFlowInstance.fitView())].
    The reaction to the returned promise is a microtask; the chain left
    running resumes only when the network answers, hence afterwards.  When
    the chain has ended, normally or not, the script is idle and the library
    receives what was pushed last. *)
Definition onInit (client : Client) (s : Store) : Store :=
  let (ready, chain) := readOnchainData client in
  let s1 := match ready with
            | Fulfilled _ => fitView s
            | Rejected _ => s
            end in
  receive (snd (chain s1)).

(** ** Closed forms of the loops *)

(** The indices [from, from + 1, ...] that a loop of [rounds] rounds visits. *)
Fixpoint indices (from : Z) (rounds : nat) : list Z :=
  match rounds with
  | O => []
  | S rounds' => from :: indices (from + 1) rounds'
  end.

(** What the states loop leaves behind, as plain functions of the client:
    the nodes pushed up to the first rejected read, and how the loop ends. *)
Fixpoint fetchedNodes (client : Client) (rounds : nat) (i yPos : Z) : list Node :=
  match rounds with
  | O => []
  | S rounds' =>
      match read_states client i with
      | Fulfilled state =>
          makeNode i state xPos (yPos + 100)
          :: fetchedNodes client rounds' (i + 1) (yPos + 100)
      | Rejected _ => []
      end
  end.

Fixpoint statesOutcome (client : Client) (rounds : nat) (i yPos : Z) : Settled Z :=
  match rounds with
  | O => Fulfilled yPos
  | S rounds' =>
      match read_states client i with
      | Fulfilled _ => statesOutcome client rounds' (i + 1) (yPos + 100)
      | Rejected r => Rejected r
      end
  end.

Fixpoint fetchedEdges (client : Client) (rounds : nat) (i : Z) : list Edge :=
  match rounds with
  | O => []
  | S rounds' =>
      match read_transitions client i with
      | Fulfilled transition =>
          makeEdge i transition :: fetchedEdges client rounds' (i + 1)
      | Rejected _ => []
      end
  end.

Fixpoint transitionsOutcome (client : Client) (rounds : nat) (i : Z) : Settled unit :=
  match rounds with
  | O => Fulfilled tt
  | S rounds' =>
      match read_transitions client i with
      | Fulfilled _ => transitionsOutcome client rounds' (i + 1)
      | Rejected r => Rejected r
      end
  end.

Definition addNodes (l : list Node) (s : Store) : Store :=
  mkStore (nodes s ++ l)%list (edges s) (fitViewCalls s) (flowNodes s).

Definition addEdges (l : list Edge) (s : Store) : Store :=
  mkStore (nodes s) (edges s ++ l)%list (fitViewCalls s) (flowNodes s).

(** The nodes that the library holds when the states loop ends: each round
    begins with an [await], at which the library receives the array as it
    stands, and then pushes. *)
Fixpoint statesFlow (client : Client) (rounds : nat) (i yPos : Z)
  (array held : list Node) : list Node :=
  match rounds with
  | O => held
  | S rounds' =>
      match read_states client i with
      | Fulfilled state =>
          statesFlow client rounds' (i + 1) (yPos + 100)
                     (array ++ [makeNode i state xPos (yPos + 100)])
                     (receiveNodes held array)
      | Rejected _ => receiveNodes held array
      end
  end.

(** ** Closed form of the classification *)

(** Whether some edge leaves the node with the given id. *)
Definition hasOutgoing (E : list Edge) (id : string) : bool :=
  existsb (fun edge => (edge_source edge =? id)%string) E.

(** The type that [adjustView] leaves on the node found under an id, when
    the array holds a node of that id; [None] when it assigns none. *)
Definition role (E : list Edge) (id : string) : option string :=
  if hasOutgoing E id
  then (if (id =? "1")%string then Some "input" else None)
  else Some "output".

Definition mem (id : string) (seen : list string) : bool :=
  existsb (String.eqb id) seen.

(** The same, for any id: only the ids of the array, [ids], are candidates
    for the output type. *)
Definition roleAmong (E : list Edge) (ids : list string) (id : string)
  : option string :=
  if negb (hasOutgoing E id) && mem id ids then Some "output"
  else if (id =? "1")%string then Some "input" else None.

Definition assign (f : string -> option string) (n : Node) : Node :=
  match f (node_id n) with
  | Some ty => set_type ty n
  | None => n
  end.

(** Assign [f id] to the first node of every id, the ids in [seen] counting
    as already met. *)
Fixpoint retype (f : string -> option string) (seen : list string)
  (l : list Node) : list Node :=
  match l with
  | [] => []
  | n :: rest =>
      (if mem (node_id n) seen then n else assign f n)
      :: retype f (node_id n :: seen) rest
  end.

Definition override (f : string -> option string) (id ty : string)
  : string -> option string :=
  fun j => if (j =? id)%string then Some ty else f j.

(** One round of the [forEach] of [adjustView], on the node list. *)
Definition outputStep (E : list Edge) (l : list Node) (id : string) : list Node :=
  if hasOutgoing E id then l else updateNode_list id "output" l.

(** ** Closed form of a run *)

(** The rounds of a loop [for (let i = 1; i < bound; i++)]. *)
Definition roundsTo (bound : Z) : nat := Z.to_nat (bound - 1).

(** The nodes and edges that a run of [onInit] pushes. *)
Definition nodesOf (client : Client) : list Node :=
  match read_stateIndex client, read_transitionIndex client with
  | Fulfilled states, Fulfilled _ => fetchedNodes client (roundsTo states) 1 50
  | _, _ => []
  end.

Definition edgesOf (client : Client) : list Edge :=
  match read_stateIndex client, read_transitionIndex client with
  | Fulfilled states, Fulfilled transitions =>
      match statesOutcome client (roundsTo states) 1 50 with
      | Fulfilled _ => fetchedEdges client (roundsTo transitions) 1
      | Rejected _ => []
      end
  | _, _ => []
  end.

(** ** The library in step with the array *)



(** ** Example ledgers *)

(** Three states and two transitions counted, so that states 1 and 2 and
    transition 1 are read; the transition is ("go", 1, 2, true). *)
Definition scenarioClient : Client :=
  {| read_stateIndex := Fulfilled 3;
     read_transitionIndex := Fulfilled 2;
     read_states := fun _ => Fulfilled (mkStateTuple (JString "state") []);
     read_transitions := fun _ =>
       Fulfilled (mkTransitionTuple (JString "go") (JBigInt 1) (JBigInt 2)
                                    (JBoolean true)) |}.

(** Both counters are read, then the read of [states(1)] is rejected. *)
Definition failingClient : Client :=
  {| read_stateIndex := Fulfilled 2;
     read_transitionIndex := Fulfilled 1;
     read_states := fun _ => Rejected "timeout";
     read_transitions := fun _ => Rejected "timeout" |}.

(** One state and one transition are read; the transition leads to state 7,
    which is no node. *)
Definition danglingClient : Client :=
  {| read_stateIndex := Fulfilled 2;
     read_transitionIndex := Fulfilled 2;
     read_states := fun _ => Fulfilled (mkStateTuple (JString "state") []);
     read_transitions := fun _ =>
       Fulfilled (mkTransitionTuple (JString "go") (JBigInt 1) (JBigInt 7)
                                    (JBoolean false)) |}.

(** Counters at their lowest: nothing is read by index, and every such read
    would be rejected. *)
Definition emptyClient : Client :=
  {| read_stateIndex := Fulfilled 1;
     read_transitionIndex := Fulfilled 0;
     read_states := fun _ => Rejected "no such state";
     read_transitions := fun _ => Rejected "no such transition" |}.

(** The scenario graph as the two loops leave it, before classification:
    the library has received both nodes. *)
Definition scenarioGraph : Store :=
  receive (addEdges (edgesOf scenarioClient)
                    (addNodes (nodesOf scenarioClient) emptyStore)).

(** One state and no transition to read. *)
Definition singleState : Client :=
  {| read_stateIndex := Fulfilled 2;
     read_transitionIndex := Fulfilled 1;
     read_states := fun _ => Fulfilled (mkStateTuple (JString "state") []);
     read_transitions := fun _ => Rejected "no such transition" |}.

(** States 1 and 3 are read, the read of [states(2)] is rejected. *)
Definition secondStateFails : Client :=
  {| read_stateIndex := Fulfilled 4;
     read_transitionIndex := Fulfilled 3;
     read_states := fun i =>
       if i =? 2 then Rejected "timeout"
       else Fulfilled (mkStateTuple (JString "state") []);
     read_transitions := fun _ =>
       Fulfilled (mkTransitionTuple (JString "go") (JBigInt 1) (JBigInt 2)
                                    (JBoolean true)) |}.

(** Every state is read, then the read of [transitions(2)] is rejected. *)
Definition secondTransitionFails : Client :=
  {| read_stateIndex := Fulfilled 3;
     read_transitionIndex := Fulfilled 3;
     read_states := fun _ => Fulfilled (mkStateTuple (JString "state") []);
     read_transitions := fun i =>
       if i =? 2 then Rejected "timeout"
       else Fulfilled (mkTransitionTuple (JString "go") (JBigInt 1) (JBigInt 2)
                                         (JBoolean true)) |}.

(** The scenario ledger, except that it answers only the indices below the
    counters: index 0 and the indices from the counter on are rejected. *)
Definition boundedClient : Client :=
  {| read_stateIndex := Fulfilled 3;
     read_transitionIndex := Fulfilled 2;
     read_states := fun i =>
       if (1 <=? i) && (i <? 3)
       then Fulfilled (mkStateTuple (JString "state") [])
       else Rejected "no such state";
     read_transitions := fun i =>
       if (1 <=? i) && (i <? 2)
       then Fulfilled (mkTransitionTuple (JString "go") (JBigInt 1) (JBigInt 2)
                                         (JBoolean true))
       else Rejected "no such transition" |}.

(** Three states and no transition. *)
Definition isolatedStates : Client :=
  {| read_stateIndex := Fulfilled 4;
     read_transitionIndex := Fulfilled 1;
     read_states := fun _ => Fulfilled (mkStateTuple (JString "state") []);
     read_transitions := fun _ => Rejected "no such transition" |}.

(** The [stateIndex] read is fulfilled, the [transitionIndex] read is
    rejected; the states are there to be read. *)
Definition transitionCountFails : Client :=
  {| read_stateIndex := Fulfilled 3;
     read_transitionIndex := Rejected "timeout";
     read_states := fun _ => Fulfilled (mkStateTuple (JString "state") []);
     read_transitions := fun _ => Rejected "timeout" |}.

(** * Properties *)


(** ** Decimal notation *)

Lemma Number_toString_inj (a b : Z) :
  Number_toString a = Number_toString b -> a = b.
Proof.
  unfold Number_toString. intros E.
  apply DecimalZ.to_int_inj.
  assert (H : NilEmpty.int_of_string (NilEmpty.string_of_int (Z.to_int a))
              = NilEmpty.int_of_string (NilEmpty.string_of_int (Z.to_int b)))
    by (rewrite E; reflexivity).
  rewrite !NilEmpty.isi in H. congruence.
Qed.

Example Number_toString_1 : Number_toString 1 = "1".
Proof. reflexivity. Qed.

Example Number_toString_12 : Number_toString 12 = "12".
Proof. reflexivity. Qed.

(** ** The loops *)

Lemma indices_length from rounds : List.length (indices from rounds) = rounds.
Proof.
  revert from. induction rounds as [|r IH]; intros from; simpl; congruence.
Qed.

Lemma indices_In from rounds i :
  In i (indices from rounds) <-> from <= i < from + Z.of_nat rounds.
Proof.
  revert from. induction rounds as [|r IH]; intros from; simpl.
  - split; [tauto | lia].
  - rewrite IH. lia.
Qed.

Lemma indices_nth from rounds j :
  (j < rounds)%nat -> nth_error (indices from rounds) j = Some (from + Z.of_nat j).
Proof.
  revert from j. induction rounds as [|r IH]; intros from j Hj; [lia|].
  destruct j as [|j]; simpl.
  - f_equal. lia.
  - rewrite IH by lia. f_equal. lia.
Qed.

Lemma indices_NoDup from rounds : NoDup (indices from rounds).
Proof.
  revert from. induction rounds as [|r IH]; intros from; simpl; constructor.
  - rewrite indices_In. lia.
  - apply IH.
Qed.

(** The loop of the script, unfolded once: test, body, increment. *)
Lemma for_loop_unfold {A} (from bound : Z) (body : Z -> A -> Async A) (acc : A) :
  for_loop from bound body acc =
  if from <? bound
  then acc' <- body from acc ;; for_loop (from + 1) bound body acc'
  else ret acc.
Proof.
  unfold for_loop. destruct (Z.ltb_spec from bound) as [Hlt|Hge].
  - replace (Z.to_nat (bound - from)) with (S (Z.to_nat (bound - (from + 1)))) by lia.
    reflexivity.
  - replace (Z.to_nat (bound - from)) with O by lia. reflexivity.
Qed.

Lemma addNodes_nil s : addNodes [] s = s.
Proof. destruct s; unfold addNodes; simpl. now rewrite app_nil_r. Qed.

Lemma addEdges_nil s : addEdges [] s = s.
Proof. destruct s; unfold addEdges; simpl. now rewrite app_nil_r. Qed.

(** *** What the library receives *)

Lemma receiveNodes_nil_l array : receiveNodes [] array = array.
Proof. reflexivity. Qed.

Lemma receiveNodes_full held array :
  (List.length array <= List.length held)%nat -> receiveNodes held array = held.
Proof.
  intros H. unfold receiveNodes. rewrite skipn_all2 by assumption.
  apply app_nil_r.
Qed.

Lemma receiveNodes_length held array :
  List.length (receiveNodes held array)
  = Nat.max (List.length held) (List.length array).
Proof. unfold receiveNodes. rewrite length_app, length_skipn. lia. Qed.

(** Receiving twice is receiving once, and what was received early is kept
    when more is pushed. *)
Lemma receiveNodes_app held array pushed :
  receiveNodes (receiveNodes held array) (array ++ pushed)
  = receiveNodes held (array ++ pushed).
Proof.
  destruct (Nat.le_gt_cases (List.length held) (List.length array)) as [Hle|Hgt].
  - unfold receiveNodes at 1 3. rewrite receiveNodes_length.
    rewrite Nat.max_r by assumption. rewrite skipn_app, skipn_all, Nat.sub_diag.
    rewrite (skipn_app (List.length held)).
    replace (List.length held - List.length array)%nat with O by lia.
    unfold receiveNodes. simpl. now rewrite <- app_assoc.
  - now rewrite (receiveNodes_full held array) by lia.
Qed.

Lemma receiveNodes_twice held array :
  receiveNodes (receiveNodes held array) array = receiveNodes held array.
Proof.
  rewrite <- (app_nil_r array) at 2. rewrite receiveNodes_app.
  now rewrite app_nil_r.
Qed.


(** *** The loops on the store *)

Lemma iterate_states client rounds i yPos s :
  iterate rounds i (statesBody client) yPos s =
  (statesOutcome client rounds i yPos,
   mkStore (nodes s ++ fetchedNodes client rounds i yPos) (edges s)
           (fitViewCalls s)
           (statesFlow client rounds i yPos (nodes s) (flowNodes s))).
Proof.
  revert i yPos s. induction rounds as [|r IH]; intros i yPos s; simpl.
  - destruct s; simpl. now rewrite app_nil_r.
  - unfold bind at 1. unfold statesBody at 1, bind, await.
    destruct (read_states client i) as [state|reason]; simpl.
    + rewrite IH. simpl. now rewrite <- app_assoc.
    + now rewrite app_nil_r.
Qed.

Lemma iterate_transitions client rounds i s :
  iterate rounds i (transitionsBody client) tt s =
  (transitionsOutcome client rounds i,
   mkStore (nodes s) (edges s ++ fetchedEdges client rounds i) (fitViewCalls s)
           (match rounds with
            | O => flowNodes s
            | S _ => receiveNodes (flowNodes s) (nodes s)
            end)).
Proof.
  revert i s. induction rounds as [|r IH]; intros i s; simpl.
  - destruct s; simpl. now rewrite app_nil_r.
  - unfold bind at 1. unfold transitionsBody at 1, bind, await.
    destruct (read_transitions client i) as [transition|reason]; simpl.
    + rewrite IH. simpl. rewrite <- app_assoc.
      destruct r; [reflexivity | now rewrite receiveNodes_twice].
    + now rewrite app_nil_r.
Qed.

(** ** Classification *)

Lemma set_type_id ty n : node_id (set_type ty n) = node_id n.
Proof. reflexivity. Qed.

Lemma assign_id f n : node_id (assign f n) = node_id n.
Proof. unfold assign. now destruct (f (node_id n)). Qed.


Lemma mem_In id seen : mem id seen = true <-> In id seen.
Proof.
  unfold mem. rewrite existsb_exists. split.
  - intros (x & Hx & E). apply String.eqb_eq in E. now subst.
  - intros H. exists id. split; [assumption | apply String.eqb_refl].
Qed.

Lemma find_hasOutgoing E id :
  match find (fun edge => (edge_source edge =? id)%string) E with
  | Some _ => true
  | None => false
  end = hasOutgoing E id.
Proof.
  unfold hasOutgoing. induction E as [|e E IH]; simpl; [reflexivity|].
  now destruct (edge_source e =? id)%string.
Qed.

Lemma hasOutgoing_spec E id :
  hasOutgoing E id = true <-> exists e, In e E /\ edge_source e = id.
Proof.
  unfold hasOutgoing. rewrite existsb_exists.
  split; intros (e & He & H); exists e; split; auto; now apply String.eqb_eq.
Qed.

Lemma updateNode_list_ids id ty l :
  map node_id (updateNode_list id ty l) = map node_id l.
Proof.
  induction l as [|n l IH]; simpl; [reflexivity|].
  destruct (node_id n =? id)%string; simpl; congruence.
Qed.

Lemma outputStep_ids E l id : map node_id (outputStep E l id) = map node_id l.
Proof.
  unfold outputStep. destruct (hasOutgoing E id); auto using updateNode_list_ids.
Qed.

Lemma markOutput_eq node s :
  markOutput node s
  = set_flowNodes (outputStep (edges s) (flowNodes s) (node_id node)) s.
Proof.
  unfold markOutput, outputStep. rewrite <- find_hasOutgoing.
  destruct (find _ (edges s)); [now destruct s | reflexivity].
Qed.

Lemma skipn_nth_error {A} (l : list A) k a :
  nth_error l k = Some a -> skipn k l = a :: skipn (S k) l.
Proof.
  revert k. induction l as [|x l IH]; intros [|k] H; simpl in *; try discriminate.
  - congruence.
  - now apply IH.
Qed.

(** The [forEach] of [adjustView] walks the array of the script and writes
    to the nodes of the library. *)
Lemma forEach_from_markOutput rounds k s :
  forEach_from markOutput k rounds s =
  set_flowNodes (fold_left (outputStep (edges s))
                           (firstn rounds (skipn k (map node_id (nodes s))))
                           (flowNodes s)) s.
Proof.
  revert k s. induction rounds as [|r IH]; intros k s; simpl.
  - now destruct s.
  - destruct (nth_error (nodes s) k) as [node|] eqn:Hk.
    + rewrite (skipn_nth_error _ k (node_id node)) by now apply map_nth_error.
      simpl. rewrite IH, markOutput_eq. reflexivity.
    + apply nth_error_None in Hk.
      rewrite IH. rewrite !skipn_all2 by (rewrite length_map; lia).
      now rewrite firstn_nil.
Qed.

Lemma retype_ext f g seen l :
  (forall j, In j (map node_id l) -> mem j seen = false -> f j = g j) ->
  retype f seen l = retype g seen l.
Proof.
  revert seen. induction l as [|n l IH]; intros seen H; simpl; [reflexivity|].
  f_equal.
  - destruct (mem (node_id n) seen) eqn:Hm; [reflexivity|].
    unfold assign. rewrite (H (node_id n)); simpl; auto.
  - apply IH. intros j Hj Hs. apply H; [simpl; auto|].
    simpl in Hs. apply orb_false_iff in Hs. tauto.
Qed.

Lemma retype_none seen l : retype (fun _ => None) seen l = l.
Proof.
  revert seen. induction l as [|n l IH]; intros seen; simpl; [reflexivity|].
  rewrite IH. now destruct (mem (node_id n) seen).
Qed.

Lemma updateNode_list_retype f seen l id ty :
  mem id seen = false ->
  updateNode_list id ty (retype f seen l) = retype (override f id ty) seen l.
Proof.
  revert seen. induction l as [|n l IH]; intros seen Hs; simpl; [reflexivity|].
  assert (Hid : node_id (if mem (node_id n) seen then n else assign f n)
                = node_id n)
    by (destruct (mem (node_id n) seen); auto using assign_id).
  rewrite Hid. destruct (node_id n =? id)%string eqn:E.
  - apply String.eqb_eq in E. subst id. rewrite Hs. f_equal.
    + unfold assign, override. rewrite String.eqb_refl.
      now destruct (f (node_id n)).
    + apply retype_ext. intros j _ Hj. unfold override.
      simpl in Hj. apply orb_false_iff in Hj. destruct Hj as [Hj _].
      now rewrite Hj.
  - f_equal.
    + destruct (mem (node_id n) seen); [reflexivity|].
      unfold assign, override. now rewrite E.
    + apply IH. simpl. rewrite Hs, orb_false_r.
      rewrite String.eqb_sym. exact E.
Qed.

Lemma fold_outputStep_retype E ids f l :
  fold_left (outputStep E) ids (retype f [] l) =
  retype (fun j => if negb (hasOutgoing E j) && mem j ids
                   then Some "output" else f j) [] l.
Proof.
  revert f. induction ids as [|i ids IH]; intros f; simpl.
  - apply retype_ext. intros j _ _. now rewrite andb_false_r.
  - unfold outputStep at 2. destruct (hasOutgoing E i) eqn:Hi.
    + rewrite IH. apply retype_ext. intros j _ _.
      destruct (String.eqb_spec j i) as [->|Hne]; simpl.
      * now rewrite Hi.
      * reflexivity.
    + rewrite updateNode_list_retype by reflexivity. rewrite IH.
      apply retype_ext. intros j _ _. unfold override.
      destruct (String.eqb_spec j i) as [->|Hne]; simpl.
      * rewrite Hi. simpl. now destruct (mem i ids).
      * reflexivity.
Qed.

Lemma roleAmong_role E ids id :
  mem id ids = true -> roleAmong E ids id = role E id.
Proof.
  intros H. unfold roleAmong, role. rewrite H, andb_true_r.
  now destruct (hasOutgoing E id).
Qed.

(** [adjustView] in closed form: the arrays and the [fitView] calls are
    untouched, and among the nodes that the library holds the first node of
    every id receives its type. *)
Lemma adjustView_closed s :
  adjustView s =
  mkStore (nodes s) (edges s) (fitViewCalls s)
          (retype (roleAmong (edges s) (map node_id (nodes s))) []
                  (flowNodes s)).
Proof.
  unfold adjustView, forEach.
  rewrite forEach_from_markOutput.
  unfold updateNode, set_flowNodes; simpl. f_equal.
  rewrite firstn_all2 by (rewrite length_map; lia).
  rewrite <- (retype_none [] (flowNodes s)) at 1.
  rewrite updateNode_list_retype by reflexivity.
  rewrite fold_outputStep_retype.
  apply retype_ext. intros j _ _. reflexivity.
Qed.


Lemma retype_map {B} (p : Node -> B) f seen l :
  (forall ty n, p (set_type ty n) = p n) ->
  map p (retype f seen l) = map p l.
Proof.
  intros Hp. revert seen. induction l as [|n l IH]; intros seen; simpl; [reflexivity|].
  rewrite IH. f_equal. destruct (mem (node_id n) seen); [reflexivity|].
  unfold assign. now destruct (f (node_id n)).
Qed.

Lemma retype_find f seen l id :
  mem id seen = false ->
  find (fun n => (node_id n =? id)%string) (retype f seen l) =
  option_map (assign f) (find (fun n => (node_id n =? id)%string) l).
Proof.
  revert seen. induction l as [|n l IH]; intros seen Hs; simpl; [reflexivity|].
  assert (Hid : node_id (if mem (node_id n) seen then n else assign f n)
                = node_id n)
    by (destruct (mem (node_id n) seen); auto using assign_id).
  rewrite Hid. destruct (node_id n =? id)%string eqn:E.
  - apply String.eqb_eq in E. subst id. now rewrite Hs.
  - apply IH. simpl. rewrite Hs, orb_false_r.
    rewrite String.eqb_sym. exact E.
Qed.

(** ** The fetched records *)

Section FetchedRecords.

Variable client : Client.

Lemma fetchedNodes_ids rounds i yPos :
  map node_id (fetchedNodes client rounds i yPos) =
  map Number_toString
      (indices i (List.length (fetchedNodes client rounds i yPos))).
Proof.
  revert i yPos. induction rounds as [|r IH]; intros i yPos; simpl; [reflexivity|].
  destruct (read_states client i); simpl; [|reflexivity].
  now rewrite <- IH.
Qed.

Lemma fetchedNodes_positions rounds i yPos :
  map node_position (fetchedNodes client rounds i yPos) =
  map (fun j => mkPosition xPos (yPos + 100 * (j - i + 1)))
      (indices i (List.length (fetchedNodes client rounds i yPos))).
Proof.
  revert i yPos. induction rounds as [|r IH]; intros i yPos;
    cbn [fetchedNodes]; [reflexivity|].
  destruct (read_states client i); [|reflexivity].
  cbn [map List.length indices makeNode node_position]. rewrite IH. f_equal.
  - f_equal. lia.
  - apply map_ext. intros j. f_equal. lia.
Qed.

Lemma fetchedNodes_length_le rounds i yPos :
  (List.length (fetchedNodes client rounds i yPos) <= rounds)%nat.
Proof.
  revert i yPos. induction rounds as [|r IH]; intros i yPos; simpl; [lia|].
  destruct (read_states client i); simpl; [|lia].
  specialize (IH (i + 1) (yPos + 100)). lia.
Qed.

Lemma fetchedNodes_full rounds i yPos :
  (forall j, i <= j < i + Z.of_nat rounds ->
             isFulfilled (read_states client j) = true) ->
  List.length (fetchedNodes client rounds i yPos) = rounds /\
  statesOutcome client rounds i yPos = Fulfilled (yPos + 100 * Z.of_nat rounds).
Proof.
  revert i yPos. induction rounds as [|r IH]; intros i yPos H.
  - simpl. split; [reflexivity | f_equal; lia].
  - cbn [fetchedNodes statesOutcome].
    pose proof (H i ltac:(lia)) as Hi.
    destruct (read_states client i); [|discriminate].
    destruct (IH (i + 1) (yPos + 100)) as [Hl Ho]; [intros; apply H; lia|].
    simpl. rewrite Hl, Ho. split; [reflexivity | f_equal; lia].
Qed.

Lemma fetchedEdges_ids rounds i :
  map edge_id (fetchedEdges client rounds i) =
  indices i (List.length (fetchedEdges client rounds i)).
Proof.
  revert i. induction rounds as [|r IH]; intros i; simpl; [reflexivity|].
  destruct (read_transitions client i); simpl; [|reflexivity].
  now rewrite <- IH.
Qed.

Lemma fetchedEdges_nth rounds i j e :
  nth_error (fetchedEdges client rounds i) j = Some e ->
  exists transition,
    read_transitions client (i + Z.of_nat j) = Fulfilled transition /\
    e = makeEdge (i + Z.of_nat j) transition.
Proof.
  revert i j. induction rounds as [|r IH]; intros i j H; simpl in H.
  - now destruct j.
  - destruct (read_transitions client i) as [t|] eqn:Hr; [|now destruct j].
    destruct j as [|j]; simpl in H.
    + exists t. replace (i + Z.of_nat 0) with i by lia. split; congruence.
    + apply IH in H. destruct H as (t' & Ht' & ->).
      replace (i + Z.of_nat (S j)) with (i + 1 + Z.of_nat j) by lia.
      now exists t'.
Qed.

Lemma fetchedEdges_full rounds i (tr : Z -> TransitionTuple) :
  (forall j, i <= j < i + Z.of_nat rounds ->
             read_transitions client j = Fulfilled (tr j)) ->
  fetchedEdges client rounds i = map (fun j => makeEdge j (tr j)) (indices i rounds) /\
  transitionsOutcome client rounds i = Fulfilled tt.
Proof.
  revert i. induction rounds as [|r IH]; intros i H.
  - now simpl.
  - cbn [fetchedEdges transitionsOutcome indices map].
    rewrite (H i) by lia.
    destruct (IH (i + 1)) as [He Ho]; [intros; apply H; lia|].
    now rewrite He, Ho.
Qed.

End FetchedRecords.

(** ** A run in closed form *)

Lemma fetchedNodes_length_fulfilled client rounds i yPos :
  isFulfilled (statesOutcome client rounds i yPos) = true ->
  List.length (fetchedNodes client rounds i yPos) = rounds.
Proof.
  revert i yPos. induction rounds as [|r IH]; intros i yPos H; [reflexivity|].
  cbn [fetchedNodes statesOutcome] in *.
  destruct (read_states client i); [|discriminate].
  cbn [List.length]. now rewrite IH.
Qed.

(** Once the library has received the array after the states loop, it holds
    what it would hold had it received the whole array at once. *)
Lemma receive_after_states client rounds i yPos array held :
  receiveNodes (statesFlow client rounds i yPos array held)
               (array ++ fetchedNodes client rounds i yPos)
  = receiveNodes held (array ++ fetchedNodes client rounds i yPos).
Proof.
  revert i yPos array held.
  induction rounds as [|r IH]; intros i yPos array held; [reflexivity|].
  cbn [statesFlow fetchedNodes].
  destruct (read_states client i) as [state|].
  - replace (array ++ makeNode i state xPos (yPos + 100)
                      :: fetchedNodes client r (i + 1) (yPos + 100))%list
      with ((array ++ [makeNode i state xPos (yPos + 100)])
            ++ fetchedNodes client r (i + 1) (yPos + 100))%list
      by (now rewrite <- app_assoc).
    rewrite IH. rewrite <- app_assoc. apply receiveNodes_app.
  - apply receiveNodes_app.
Qed.

Lemma statesFlow_S client r i yPos array held :
  statesFlow client (S r) i yPos array held
  = match read_states client i with
    | Fulfilled state =>
        statesFlow client r (i + 1) (yPos + 100)
                   (array ++ [makeNode i state xPos (yPos + 100)])
                   (receiveNodes held array)
    | Rejected _ => receiveNodes held array
    end.
Proof. reflexivity. Qed.

Lemma statesOutcome_S client r i yPos :
  statesOutcome client (S r) i yPos
  = match read_states client i with
    | Fulfilled _ => statesOutcome client r (i + 1) (yPos + 100)
    | Rejected reason => Rejected reason
    end.
Proof. reflexivity. Qed.

Lemma fetchedNodes_S client r i yPos :
  fetchedNodes client (S r) i yPos
  = match read_states client i with
    | Fulfilled state =>
        makeNode i state xPos (yPos + 100)
        :: fetchedNodes client r (i + 1) (yPos + 100)
    | Rejected _ => []
    end.
Proof. reflexivity. Qed.

(** When the states loop ends normally, the library has not received the
    node pushed last. *)
Lemma statesFlow_fulfilled client rounds i yPos array held :
  isFulfilled (statesOutcome client (S rounds) i yPos) = true ->
  statesFlow client (S rounds) i yPos array held
  = receiveNodes held
      (array ++ removelast (fetchedNodes client (S rounds) i yPos)).
Proof.
  revert i yPos array held.
  induction rounds as [|r IH]; intros i yPos array held H;
    rewrite statesOutcome_S in H; rewrite statesFlow_S, fetchedNodes_S;
    destruct (read_states client i) as [state|]; try discriminate.
  - simpl. now rewrite app_nil_r.
  - rewrite IH by assumption.
    pose proof (fetchedNodes_length_fulfilled client (S r) (i + 1) (yPos + 100) H)
      as Hlen.
    destruct (fetchedNodes client (S r) (i + 1) (yPos + 100)) as [|n0 rest];
      [discriminate|].
    rewrite <- app_assoc. rewrite receiveNodes_app. reflexivity.
Qed.

Lemma project_closed client states transitions s :
  project client states transitions s =
  let s1 := mkStore (nodes s ++ fetchedNodes client (roundsTo states) 1 50)
                    (edges s) (fitViewCalls s)
                    (statesFlow client (roundsTo states) 1 50
                                (nodes s) (flowNodes s)) in
  match statesOutcome client (roundsTo states) 1 50 with
  | Rejected r => (Rejected r, s1)
  | Fulfilled _ =>
      let s2 := mkStore (nodes s1)
                        (edges s1 ++ fetchedEdges client (roundsTo transitions) 1)
                        (fitViewCalls s1)
                        (match roundsTo transitions with
                         | O => flowNodes s1
                         | S _ => receiveNodes (flowNodes s1) (nodes s1)
                         end) in
      match transitionsOutcome client (roundsTo transitions) 1 with
      | Rejected r => (Rejected r, s2)
      | Fulfilled _ => (Fulfilled tt, adjustView s2)
      end
  end.
Proof.
  unfold project, for_loop, bind, roundsTo.
  rewrite iterate_states.
  destruct (statesOutcome client (Z.to_nat (states - 1)) 1 50); [|reflexivity].
  rewrite iterate_transitions.
  now destruct (transitionsOutcome client (Z.to_nat (transitions - 1)) 1).
Qed.

Lemma adjustView_nodes s : nodes (adjustView s) = nodes s.
Proof. now rewrite adjustView_closed. Qed.

Lemma adjustView_edges s : edges (adjustView s) = edges s.
Proof. now rewrite adjustView_closed. Qed.

Lemma adjustView_fitViewCalls s : fitViewCalls (adjustView s) = fitViewCalls s.
Proof. now rewrite adjustView_closed. Qed.

Lemma adjustView_flow_map {B} (p : Node -> B) s :
  (forall ty n, p (set_type ty n) = p n) ->
  map p (flowNodes (adjustView s)) = map p (flowNodes s).
Proof. intros Hp. rewrite adjustView_closed. simpl. now apply retype_map. Qed.

(** A run, case by case: a rejected [stateIndex] read leaves the arrays as
    they were; otherwise [fitView] is called, and the arrays then receive
    what the loops push until the first rejected read; [adjustView] runs only
    when no read was rejected.  The library receives the nodes at every
    [await] and when the run is over. *)
Lemma onInit_closed client s :
  onInit client s =
  match read_stateIndex client with
  | Rejected _ => receive s
  | Fulfilled states =>
      match read_transitionIndex client with
      | Rejected _ => receive (receive (fitView s))
      | Fulfilled transitions =>
          let s0 := receive (fitView s) in
          let s1 := mkStore (nodes s0 ++ fetchedNodes client (roundsTo states) 1 50)
                            (edges s0) (fitViewCalls s0)
                            (statesFlow client (roundsTo states) 1 50
                                        (nodes s0) (flowNodes s0)) in
          match statesOutcome client (roundsTo states) 1 50 with
          | Rejected _ => receive s1
          | Fulfilled _ =>
              let s2 :=
                mkStore (nodes s1)
                        (edges s1 ++ fetchedEdges client (roundsTo transitions) 1)
                        (fitViewCalls s1)
                        (match roundsTo transitions with
                         | O => flowNodes s1
                         | S _ => receiveNodes (flowNodes s1) (nodes s1)
                         end) in
              match transitionsOutcome client (roundsTo transitions) 1 with
              | Rejected _ => receive s2
              | Fulfilled _ => receive (adjustView s2)
              end
          end
      end
  end.
Proof.
  unfold onInit, readOnchainData.
  destruct (read_stateIndex client) as [states|]; simpl; [|reflexivity].
  unfold bind, await.
  destruct (read_transitionIndex client) as [transitions|]; simpl; [|reflexivity].
  rewrite project_closed. cbv zeta.
  destruct (statesOutcome client (roundsTo states) 1 50); simpl; [|reflexivity].
  now destruct (transitionsOutcome client (roundsTo transitions) 1).
Qed.

(** Case analysis on how the reads of a run settle. *)
Ltac run_cases :=
  rewrite onInit_closed; cbv zeta;
  repeat match goal with
         | |- context [match ?p with Fulfilled _ => _ | Rejected _ => _ end] =>
             destruct p
         end.

Lemma onInit_edges client s :
  edges (onInit client s) = (edges s ++ edgesOf client)%list.
Proof.
  unfold edgesOf. run_cases; simpl;
    rewrite ?adjustView_edges, ?app_nil_r; reflexivity.
Qed.

(** The array of the script after a run: what it held, then the nodes
    pushed; the script never writes to a node of the array again. *)
Lemma onInit_nodes client s :
  nodes (onInit client s) = (nodes s ++ nodesOf client)%list.
Proof.
  unfold nodesOf. run_cases; simpl;
    rewrite ?adjustView_nodes, ?app_nil_r; reflexivity.
Qed.

Lemma onInit_map {B} (p : Node -> B) client s :
  map p (nodes (onInit client s)) = (map p (nodes s) ++ map p (nodesOf client))%list.
Proof. now rewrite onInit_nodes, map_app. Qed.

(** [fitView] is called exactly when the [stateIndex] read is fulfilled,
    whatever happens to the reads that follow. *)
Lemma onInit_fitViewCalls client s :
  fitViewCalls (onInit client s) =
  if isFulfilled (read_stateIndex client)
  then S (fitViewCalls s) else fitViewCalls s.
Proof.
  run_cases; simpl; rewrite ?adjustView_fitViewCalls; reflexivity.
Qed.

Lemma nodesOf_counted client N M :
  read_stateIndex client = Fulfilled N ->
  read_transitionIndex client = Fulfilled M ->
  nodesOf client = fetchedNodes client (roundsTo N) 1 50.
Proof. unfold nodesOf. now intros -> ->. Qed.

Lemma nodesOf_ids client :
  map node_id (nodesOf client) =
  map Number_toString (indices 1 (List.length (nodesOf client))).
Proof.
  unfold nodesOf.
  destruct (read_stateIndex client); [|reflexivity].
  destruct (read_transitionIndex client); [|reflexivity].
  apply fetchedNodes_ids.
Qed.

Lemma edgesOf_ids client :
  map edge_id (edgesOf client) = indices 1 (List.length (edgesOf client)).
Proof.
  unfold edgesOf.
  destruct (read_stateIndex client) as [N|]; [|reflexivity].
  destruct (read_transitionIndex client); [|reflexivity].
  destruct (statesOutcome client (roundsTo N) 1 50); [|reflexivity].
  apply fetchedEdges_ids.
Qed.

Lemma NoDup_map_inj {A B} (f : A -> B) (l : list A) :
  (forall a b, f a = f b -> a = b) -> NoDup l -> NoDup (map f l).
Proof.
  intros Hinj Hl. induction Hl as [|a l Ha Hl IH]; simpl; constructor; auto.
  rewrite in_map_iff. intros (b & Hb & Hin).
  apply Hinj in Hb. now subst.
Qed.

(** The scenario run: two nodes, one edge from "1" to "2"; for the library
    node "1" is the input and node "2", which no edge leaves, the output. *)
Example scenario_run :
  onInit scenarioClient emptyStore =
  {| nodes := [mkNode "1" "state" (mkPosition 250 150) "light" None;
               mkNode "2" "state" (mkPosition 250 250) "light" None];
     edges := [mkEdge 1 (JString "go") "1" "2" true ArrowClosed];
     fitViewCalls := 1;
     flowNodes :=
       [mkNode "1" "state" (mkPosition 250 150) "light" (Some "input");
        mkNode "2" "state" (mkPosition 250 250) "light" (Some "output")] |}.
Proof. reflexivity. Qed.

(** Three states and no transition: [adjustView] runs in the turn of the
    script that pushed the third node, which the library has not received. *)
Example isolatedStates_run :
  map node_type (flowNodes (onInit isolatedStates emptyStore))
  = [Some "output"; Some "output"; None].
Proof. reflexivity. Qed.

(** * The claims *)

(** C1. When the [stateIndex] read gives N >= 1, the [transitionIndex] read
    is fulfilled too, and every read [states(i)] for 1 <= i < N is fulfilled,
    a run of [onInit] appends exactly N - 1 nodes; their ids, in the order
    of insertion, are the decimal notations of 1, 2, ..., N - 1, and the
    k-th appended node has the id [String(k)]. *)
Theorem projection_appends_nodes (client : Client) (N M : Z) (s : Store)
  (Hstates : read_stateIndex client = Fulfilled N)
  (Htransitions : read_transitionIndex client = Fulfilled M)
  (HN : 1 <= N)
  (Hreads : forall i, 1 <= i < N -> isFulfilled (read_states client i) = true) :
  Z.of_nat (List.length (nodes (onInit client s)))
  = Z.of_nat (List.length (nodes s)) + (N - 1) /\
  map node_id (nodes (onInit client s))
  = (map node_id (nodes s) ++ map Number_toString (indices 1 (roundsTo N)))%list /\
  forall k, 1 <= k < N ->
    option_map node_id
      (nth_error (nodes (onInit client s))
                 (List.length (nodes s) + Z.to_nat (k - 1)))
    = Some (Number_toString k).
Proof.
  assert (Hlen : List.length (nodesOf client) = roundsTo N).
  { rewrite (nodesOf_counted client N M) by assumption.
    apply fetchedNodes_full. intros j Hj. apply Hreads. unfold roundsTo in Hj. lia. }
  assert (Hids : map node_id (nodes (onInit client s))
                 = (map node_id (nodes s)
                    ++ map Number_toString (indices 1 (roundsTo N)))%list).
  { rewrite onInit_map. now rewrite nodesOf_ids, Hlen. }
  split; [|split].
  - rewrite <- (length_map node_id), Hids.
    rewrite length_app, !length_map, indices_length. unfold roundsTo. lia.
  - exact Hids.
  - intros k Hk. rewrite <- nth_error_map, Hids.
    rewrite nth_error_app2 by (rewrite length_map; lia).
    rewrite length_map.
    replace (List.length (nodes s) + Z.to_nat (k - 1) - List.length (nodes s))%nat
      with (Z.to_nat (k - 1)) by lia.
    rewrite nth_error_map, indices_nth by (unfold roundsTo; lia).
    cbn [option_map]. do 2 f_equal. lia.
Qed.

Lemma projection_appends_nodes_witness :
  map node_id (nodes (onInit scenarioClient emptyStore)) = ["1"; "2"].
Proof.
  refine (proj1 (proj2
    (projection_appends_nodes scenarioClient 3 2 emptyStore
       eq_refl eq_refl _ _))).
  - lia.
  - intros i _. reflexivity.
Defined.

(** C2, as the code has it.  When both counters are read, the
    [transitionIndex] read gives M >= 1, the states loop is not interrupted
    and every read [transitions(i)] for 1 <= i < M is fulfilled with the
    tuple [tr i], a run of [onInit] appends exactly M - 1 edges; their
    integer ids are 1, 2, ..., M - 1, and the edge of index i is built from
    the tuple [tr i], which gives its source and its target. *)
Theorem projection_appends_edges (client : Client) (N M : Z) (s : Store)
  (tr : Z -> TransitionTuple)
  (Hstates : read_stateIndex client = Fulfilled N)
  (Htransitions : read_transitionIndex client = Fulfilled M)
  (HM : 1 <= M)
  (HreadS : forall i, 1 <= i < N -> isFulfilled (read_states client i) = true)
  (HreadT : forall i, 1 <= i < M -> read_transitions client i = Fulfilled (tr i)) :
  edges (onInit client s)
  = (edges s ++ map (fun i => makeEdge i (tr i)) (indices 1 (roundsTo M)))%list /\
  Z.of_nat (List.length (edges (onInit client s)))
  = Z.of_nat (List.length (edges s)) + (M - 1) /\
  map edge_id (edges (onInit client s))
  = (map edge_id (edges s) ++ indices 1 (roundsTo M))%list /\
  (forall i, In i (indices 1 (roundsTo M)) <-> 1 <= i <= M - 1).
Proof.
  assert (He : edges (onInit client s)
               = (edges s ++ map (fun i => makeEdge i (tr i))
                                 (indices 1 (roundsTo M)))%list).
  { rewrite onInit_edges. f_equal. unfold edgesOf.
    rewrite Hstates, Htransitions.
    destruct (fetchedNodes_full client (roundsTo N) 1 50) as [_ ->].
    - intros j Hj. apply HreadS. unfold roundsTo in Hj. lia.
    - apply fetchedEdges_full. intros j Hj. apply HreadT.
      unfold roundsTo in Hj. lia. }
  split; [exact He|]. rewrite He. split; [|split].
  - rewrite length_app, length_map, indices_length. unfold roundsTo. lia.
  - rewrite map_app, map_map. f_equal. apply map_id.
  - intros i. rewrite indices_In. unfold roundsTo. lia.
Qed.

Lemma projection_appends_edges_witness :
  map edge_id (edges (onInit scenarioClient emptyStore)) = [1].
Proof.
  refine (proj1 (proj2 (proj2
    (projection_appends_edges scenarioClient 3 2 emptyStore
       (fun _ => mkTransitionTuple (JString "go") (JBigInt 1) (JBigInt 2)
                                   (JBoolean true))
       eq_refl eq_refl _ _ _)))).
  - lia.
  - intros i _. reflexivity.
  - intros i _. reflexivity.
Defined.

(** C2, as the claim words it, fails: with M = 2 and every read fulfilled,
    the run appends M - 1 = 1 edge, and its id, 1, is not within 1..M-2. *)
Lemma edge_ids_exceed_claimed_range :
  read_stateIndex scenarioClient = Fulfilled 3 /\
  read_transitionIndex scenarioClient = Fulfilled 2 /\
  (forall i, isFulfilled (read_states scenarioClient i) = true) /\
  (forall i, isFulfilled (read_transitions scenarioClient i) = true) /\
  List.length (edges (onInit scenarioClient emptyStore)) = 1%nat /\
  ~ (forall e, In e (edges (onInit scenarioClient emptyStore)) ->
               1 <= edge_id e <= 2 - 2).
Proof.
  repeat split.
  intros H.
  specialize (H (makeEdge 1 (mkTransitionTuple (JString "go") (JBigInt 1)
                                                (JBigInt 2) (JBoolean true)))
                (or_introl eq_refl)).
  simpl in H. lia.
Qed.

(** C3, at the failing input: the counters are read and the first read
    [states(1)] is rejected.  The graph stays empty and nothing is
    classified, but [fitView] has been called once, because the promise of
    [readOnchainData] was fulfilled as soon as [stateIndex] was read. *)
Theorem fitView_called_despite_rejected_read :
  read_stateIndex failingClient = Fulfilled 2 /\
  read_transitionIndex failingClient = Fulfilled 1 /\
  read_states failingClient 1 = Rejected "timeout" /\
  nodes (onInit failingClient emptyStore) = [] /\
  edges (onInit failingClient emptyStore) = [] /\
  fitViewCalls (onInit failingClient emptyStore) = 1%nat.
Proof. repeat split. Qed.

(** C7. In every run, whether it completes or is interrupted, the k-th
    appended node (k = 1, 2, ...) is placed at x = 250 and
    y = 150 + 100 * (k - 1): the placement depends on the fetch order alone. *)
Theorem node_placement (client : Client) (s : Store) :
  map node_position (nodes (onInit client s))
  = (map node_position (nodes s)
     ++ map (fun k => mkPosition 250 (150 + 100 * (k - 1)))
            (indices 1 (List.length (nodes (onInit client s))
                        - List.length (nodes s))))%list.
Proof.
  rewrite onInit_map. f_equal.
  rewrite <- (length_map node_position (nodes (onInit client s))).
  rewrite onInit_map.
  rewrite length_app, !length_map.
  replace (List.length (nodes s) + List.length (nodesOf client)
           - List.length (nodes s))%nat
    with (List.length (nodesOf client)) by lia.
  unfold nodesOf.
  destruct (read_stateIndex client) as [N|]; [|reflexivity].
  destruct (read_transitionIndex client); [|reflexivity].
  rewrite fetchedNodes_positions. apply map_ext.
  intros k. unfold xPos. f_equal. lia.
Qed.

(** C8, as the code has it.  Every edge that a run appends, at position j
    after the edges present before, is built from the tuple fetched for the
    index i = j + 1: its id is i (a positive integer), its label is
    tuple[0] unchanged, its source and its target are the strings
    [tuple[1].toString()] and [tuple[2].toString()], [animated] is the
    truthiness of tuple[3], and its marker is the closed arrow. *)
Theorem edge_fields (client : Client) (s : Store) (j : nat) (e : Edge)
  (He : nth_error (edges (onInit client s)) (List.length (edges s) + j) = Some e) :
  exists tuple,
    read_transitions client (Z.of_nat j + 1) = Fulfilled tuple /\
    edge_id e = Z.of_nat j + 1 /\
    0 < edge_id e /\
    edge_label e = transition_0 tuple /\
    edge_source e = toString (transition_1 tuple) /\
    edge_target e = toString (transition_2 tuple) /\
    edge_animated e = Boolean (transition_3 tuple) /\
    edge_markerEnd e = ArrowClosed.
Proof.
  rewrite onInit_edges in He.
  rewrite nth_error_app2 in He by lia.
  replace (List.length (edges s) + j - List.length (edges s))%nat with j in He by lia.
  assert (H : nth_error (edgesOf client) j = Some e ->
              exists N, nth_error (fetchedEdges client N 1) j = Some e).
  { unfold edgesOf.
    destruct (read_stateIndex client) as [N|]; [|now destruct j].
    destruct (read_transitionIndex client) as [M|]; [|now destruct j].
    destruct (statesOutcome client (roundsTo N) 1 50); [|now destruct j].
    intros H. now exists (roundsTo M). }
  destruct (H He) as [N HN].
  apply fetchedEdges_nth in HN. destruct HN as (tuple & Hread & ->).
  exists tuple. replace (Z.of_nat j + 1) with (1 + Z.of_nat j) by lia.
  split; [assumption|]. split; [reflexivity|].
  split; [cbn [makeEdge edge_id]; lia|]. repeat split.
Qed.

Lemma edge_fields_witness :
  exists tuple,
    read_transitions scenarioClient 1 = Fulfilled tuple /\
    toString (transition_1 tuple) = "1" /\
    toString (transition_2 tuple) = "2".
Proof.
  destruct (edge_fields scenarioClient emptyStore 0
              (makeEdge 1 (mkTransitionTuple (JString "go") (JBigInt 1)
                                             (JBigInt 2) (JBoolean true)))
              eq_refl)
    as (tuple & Hread & _ & _ & _ & Hsource & Htarget & _).
  exists tuple. repeat split; [exact Hread | now rewrite <- Hsource
                              | now rewrite <- Htarget].
Defined.

(** C8, as the claim words it, fails: for the tuple ("go", 1, 2, true) the
    source and the target of the edge are the strings "1" and "2", which are
    not the integers tuple[1] and tuple[2], nor integers at all. *)
Lemma edge_endpoints_are_strings :
  read_transitions scenarioClient 1
  = Fulfilled (mkTransitionTuple (JString "go") (JBigInt 1) (JBigInt 2)
                                 (JBoolean true)) /\
  exists e,
    edges (onInit scenarioClient emptyStore) = [e] /\
    edge_source e = "1" /\ edge_target e = "2" /\
    JString (edge_source e) <> JBigInt 1 /\
    JString (edge_target e) <> JBigInt 2 /\
    (forall n, JString (edge_source e) <> JBigInt n /\
               JString (edge_source e) <> JNumber n).
Proof.
  split; [reflexivity|].
  eexists. split; [reflexivity|].
  repeat split; try reflexivity; discriminate.
Qed.

(** C4, at the failing input: one state is read and no transition.  The
    transitions loop makes no round, so [adjustView] runs in the turn of the
    script that pushed node "1", before the library has received it:
    [updateNode] finds no node to write to, and node "1", which no edge
    leaves, ends without a type instead of the type "output". *)
Theorem node_one_left_untyped :
  read_stateIndex singleState = Fulfilled 2 /\
  read_transitionIndex singleState = Fulfilled 1 /\
  isFulfilled (read_states singleState 1) = true /\
  edges (onInit singleState emptyStore) = [] /\
  flowNodes (onInit singleState emptyStore)
  = [mkNode "1" "state" (mkPosition 250 150) "light" None].
Proof. repeat split. Qed.


(** C6. With a counter of 0 or 1 the corresponding loop makes no round: it
    reads nothing, leaves the store as it is and ends normally.  Starting
    from the empty store, a state counter of 0 or 1 leaves no node and a
    transition counter of 0 or 1 leaves no edge, whatever the other reads
    do; and [adjustView] on the empty graph changes nothing. *)
Theorem low_counters_append_nothing (client : Client) (N M : Z) (s : Store)
  (HN : N = 0 \/ N = 1) (HM : M = 0 \/ M = 1) :
  for_loop 1 N (statesBody client) 50 s = (Fulfilled 50, s) /\
  for_loop 1 M (transitionsBody client) tt s = (Fulfilled tt, s) /\
  (read_stateIndex client = Fulfilled N ->
   nodes (onInit client emptyStore) = []) /\
  (read_transitionIndex client = Fulfilled M ->
   edges (onInit client emptyStore) = []) /\
  project client N M emptyStore = (Fulfilled tt, emptyStore) /\
  adjustView emptyStore = emptyStore.
Proof.
  assert (HrN : roundsTo N = O) by (unfold roundsTo; lia).
  assert (HrM : roundsTo M = O) by (unfold roundsTo; lia).
  split; [|split; [|split; [|split; [|split]]]].
  - unfold for_loop. fold (roundsTo N). now rewrite HrN.
  - unfold for_loop. fold (roundsTo M). now rewrite HrM.
  - intros Hs. rewrite onInit_nodes. unfold nodesOf. rewrite Hs, HrN.
    now destruct (read_transitionIndex client).
  - intros Ht. rewrite onInit_edges. unfold edgesOf. rewrite Ht, HrM.
    destruct (read_stateIndex client) as [N'|]; [|reflexivity].
    now destruct (statesOutcome client (roundsTo N') 1 50).
  - rewrite project_closed, HrN, HrM. reflexivity.
  - reflexivity.
Qed.

Lemma low_counters_append_nothing_witness :
  onInit emptyClient emptyStore = fitView emptyStore /\
  nodes (onInit emptyClient emptyStore) = [] /\
  edges (onInit emptyClient emptyStore) = [].
Proof.
  destruct (low_counters_append_nothing emptyClient 1 0 emptyStore
              (or_intror eq_refl) (or_introl eq_refl))
    as (_ & _ & Hnodes & Hedges & _ & _).
  split; [reflexivity|]. split; [exact (Hnodes eq_refl) | exact (Hedges eq_refl)].
Defined.

(** C9. In the graph that a run builds from the empty store, complete or
    interrupted, the node ids are pairwise distinct, the edge ids are
    pairwise distinct, and the nodes stand in the order of their fetch
    indices 1, 2, ...; the endpoints of an edge need not be node ids. *)
Theorem graph_ids_distinct (client : Client) :
  NoDup (map node_id (nodes (onInit client emptyStore))) /\
  NoDup (map edge_id (edges (onInit client emptyStore))) /\
  map node_id (nodes (onInit client emptyStore))
  = map Number_toString
        (indices 1 (List.length (nodes (onInit client emptyStore)))) /\
  exists e,
    In e (edges (onInit danglingClient emptyStore)) /\
    ~ In (edge_target e) (map node_id (nodes (onInit danglingClient emptyStore))).
Proof.
  assert (Hids : map node_id (nodes (onInit client emptyStore))
                 = map Number_toString
                       (indices 1 (List.length (nodes (onInit client emptyStore))))).
  { rewrite <- (length_map node_id (nodes (onInit client emptyStore))).
    rewrite onInit_map. cbn [emptyStore nodes map app].
    rewrite length_map. apply nodesOf_ids. }
  split; [|split; [|split]].
  - rewrite Hids. apply NoDup_map_inj.
    + apply Number_toString_inj.
    + apply indices_NoDup.
  - rewrite onInit_edges. cbn [emptyStore edges app].
    rewrite edgesOf_ids. apply indices_NoDup.
  - exact Hids.
  - eexists. split; [left; reflexivity|].
    cbv. intros [H|[]]. discriminate H.
Qed.

(** C10. [adjustView] touches the type of nodes and nothing else: the edges
    are unchanged, the nodes keep their number and order, and every node
    keeps its id, label, position and class.  This holds of the array of the
    script, which is not written to at all, and of the nodes that the
    library holds, where the types are written. *)
Theorem adjustView_frame (s : Store) :
  edges (adjustView s) = edges s /\
  List.length (nodes (adjustView s)) = List.length (nodes s) /\
  map node_id (nodes (adjustView s)) = map node_id (nodes s) /\
  map node_label (nodes (adjustView s)) = map node_label (nodes s) /\
  map node_position (nodes (adjustView s)) = map node_position (nodes s) /\
  map node_class (nodes (adjustView s)) = map node_class (nodes s) /\
  fitViewCalls (adjustView s) = fitViewCalls s /\
  nodes (adjustView s) = nodes s /\
  List.length (flowNodes (adjustView s)) = List.length (flowNodes s) /\
  map node_id (flowNodes (adjustView s)) = map node_id (flowNodes s) /\
  map node_label (flowNodes (adjustView s)) = map node_label (flowNodes s) /\
  map node_position (flowNodes (adjustView s))
  = map node_position (flowNodes s) /\
  map node_class (flowNodes (adjustView s)) = map node_class (flowNodes s).
Proof.
  rewrite adjustView_nodes.
  split; [apply adjustView_edges|].
  do 5 (split; [reflexivity|]).
  split; [apply adjustView_fitViewCalls|].
  split; [reflexivity|].
  split; [rewrite <- (length_map node_id), adjustView_flow_map by reflexivity;
          apply length_map|].
  repeat split; now apply adjustView_flow_map.
Qed.

(** * Further properties of a run *)

(** ** More on the fetched records *)

Section FetchedRecordsFurther.

Variable client : Client.

Lemma fetchedNodes_nth rounds i yPos j n :
  nth_error (fetchedNodes client rounds i yPos) j = Some n ->
  exists state,
    read_states client (i + Z.of_nat j) = Fulfilled state /\
    n = makeNode (i + Z.of_nat j) state xPos (yPos + 100 * (Z.of_nat j + 1)).
Proof.
  revert i yPos j. induction rounds as [|r IH]; intros i yPos j H;
    cbn [fetchedNodes] in H.
  - now destruct j.
  - destruct (read_states client i) as [t|] eqn:Hr; [|now destruct j].
    destruct j as [|j]; cbn [nth_error] in H.
    + exists t. replace (i + Z.of_nat 0) with i by lia.
      split; [assumption|]. injection H as <-. f_equal.
    + apply IH in H. destruct H as (t' & Ht' & ->).
      replace (i + Z.of_nat (S j)) with (i + 1 + Z.of_nat j) by lia.
      exists t'. split; [assumption|]. f_equal. lia.
Qed.

Lemma fetchedNodes_untyped rounds i yPos n :
  In n (fetchedNodes client rounds i yPos) -> node_type n = None.
Proof.
  intros H. apply In_nth_error in H. destruct H as [j H].
  apply fetchedNodes_nth in H. now destruct H as (t & _ & ->).
Qed.

Lemma fetchedEdges_length_le rounds i :
  (List.length (fetchedEdges client rounds i) <= rounds)%nat.
Proof.
  revert i. induction rounds as [|r IH]; intros i; simpl; [lia|].
  destruct (read_transitions client i); simpl; [|lia].
  specialize (IH (i + 1)). lia.
Qed.

(** A loop ends normally exactly when every read it makes is fulfilled. *)
Lemma statesOutcome_fulfilled rounds i yPos :
  isFulfilled (statesOutcome client rounds i yPos) = true <->
  forall j, i <= j < i + Z.of_nat rounds ->
            isFulfilled (read_states client j) = true.
Proof.
  revert i yPos. induction rounds as [|r IH]; intros i yPos;
    cbn [statesOutcome].
  - split; [intros _ j Hj; lia | reflexivity].
  - destruct (read_states client i) eqn:Hr.
    + rewrite IH. split; intros H j Hj.
      * destruct (Z.eq_dec j i) as [->|Hne]; [now rewrite Hr | apply H; lia].
      * apply H. lia.
    + split; [discriminate|]. intros H.
      specialize (H i ltac:(lia)). now rewrite Hr in H.
Qed.

Lemma transitionsOutcome_fulfilled rounds i :
  isFulfilled (transitionsOutcome client rounds i) = true <->
  forall j, i <= j < i + Z.of_nat rounds ->
            isFulfilled (read_transitions client j) = true.
Proof.
  revert i. induction rounds as [|r IH]; intros i; cbn [transitionsOutcome].
  - split; [intros _ j Hj; lia | reflexivity].
  - destruct (read_transitions client i) eqn:Hr.
    + rewrite IH. split; intros H j Hj.
      * destruct (Z.eq_dec j i) as [->|Hne]; [now rewrite Hr | apply H; lia].
      * apply H. lia.
    + split; [discriminate|]. intros H.
      specialize (H i ltac:(lia)). now rewrite Hr in H.
Qed.

(** The loops stop at the first rejected read. *)
Lemma fetchedNodes_first_rejection rounds i yPos k :
  i <= k < i + Z.of_nat rounds ->
  isFulfilled (read_states client k) = false ->
  (forall j, i <= j < k -> isFulfilled (read_states client j) = true) ->
  List.length (fetchedNodes client rounds i yPos) = Z.to_nat (k - i) /\
  isFulfilled (statesOutcome client rounds i yPos) = false.
Proof.
  revert i yPos. induction rounds as [|r IH]; intros i yPos Hk Hrej Hbefore;
    [lia|].
  cbn [fetchedNodes statesOutcome].
  destruct (Z.eq_dec k i) as [->|Hne].
  - destruct (read_states client i); [discriminate|].
    replace (Z.to_nat (i - i)) with O by lia. now split.
  - pose proof (Hbefore i ltac:(lia)) as Hi.
    destruct (read_states client i); [|discriminate].
    destruct (IH (i + 1) (yPos + 100)) as [Hl Ho];
      [lia | assumption | intros; apply Hbefore; lia |].
    cbn [List.length]. rewrite Hl. split; [lia | assumption].
Qed.

Lemma fetchedEdges_first_rejection rounds i k :
  i <= k < i + Z.of_nat rounds ->
  isFulfilled (read_transitions client k) = false ->
  (forall j, i <= j < k -> isFulfilled (read_transitions client j) = true) ->
  List.length (fetchedEdges client rounds i) = Z.to_nat (k - i) /\
  isFulfilled (transitionsOutcome client rounds i) = false.
Proof.
  revert i. induction rounds as [|r IH]; intros i Hk Hrej Hbefore; [lia|].
  cbn [fetchedEdges transitionsOutcome].
  destruct (Z.eq_dec k i) as [->|Hne].
  - destruct (read_transitions client i); [discriminate|].
    replace (Z.to_nat (i - i)) with O by lia. now split.
  - pose proof (Hbefore i ltac:(lia)) as Hi.
    destruct (read_transitions client i); [|discriminate].
    destruct (IH (i + 1)) as [Hl Ho];
      [lia | assumption | intros; apply Hbefore; lia |].
    cbn [List.length]. rewrite Hl. split; [lia | assumption].
Qed.

End FetchedRecordsFurther.

(** The loops see the client only through the reads of their own indices. *)
Lemma fetchedNodes_ext c1 c2 rounds i yPos :
  (forall j, i <= j < i + Z.of_nat rounds -> read_states c1 j = read_states c2 j) ->
  fetchedNodes c1 rounds i yPos = fetchedNodes c2 rounds i yPos /\
  statesOutcome c1 rounds i yPos = statesOutcome c2 rounds i yPos.
Proof.
  revert i yPos. induction rounds as [|r IH]; intros i yPos H; [now split|].
  cbn [fetchedNodes statesOutcome]. rewrite <- (H i) by lia.
  destruct (read_states c1 i); [|now split].
  destruct (IH (i + 1) (yPos + 100)) as [-> ->]; [intros; apply H; lia|].
  now split.
Qed.

Lemma fetchedEdges_ext c1 c2 rounds i :
  (forall j, i <= j < i + Z.of_nat rounds ->
             read_transitions c1 j = read_transitions c2 j) ->
  fetchedEdges c1 rounds i = fetchedEdges c2 rounds i /\
  transitionsOutcome c1 rounds i = transitionsOutcome c2 rounds i.
Proof.
  revert i. induction rounds as [|r IH]; intros i H; [now split|].
  cbn [fetchedEdges transitionsOutcome]. rewrite <- (H i) by lia.
  destruct (read_transitions c1 i); [|now split].
  destruct (IH (i + 1)) as [-> ->]; [intros; apply H; lia|].
  now split.
Qed.

Lemma statesFlow_ext c1 c2 rounds i yPos array held :
  (forall j, i <= j < i + Z.of_nat rounds -> read_states c1 j = read_states c2 j) ->
  statesFlow c1 rounds i yPos array held = statesFlow c2 rounds i yPos array held.
Proof.
  revert i yPos array held.
  induction rounds as [|r IH]; intros i yPos array held H; [reflexivity|].
  rewrite !statesFlow_S. rewrite <- (H i) by lia.
  destruct (read_states c1 i); [|reflexivity].
  apply IH. intros; apply H; lia.
Qed.

Lemma firstn_length_app {A} (l l' : list A) : firstn (List.length l) (l ++ l') = l.
Proof. induction l as [|a l IH]; simpl; [reflexivity | now rewrite IH]. Qed.

Lemma skipn_length_app {A} (l l' : list A) : skipn (List.length l) (l ++ l') = l'.
Proof. induction l as [|a l IH]; simpl; [reflexivity | exact IH]. Qed.

(** ** The counter reads *)

(** X1. [fitView] is called once when the [stateIndex] read is fulfilled and
    not at all when it is rejected; no other read has a say in it. *)
Theorem fitView_follows_stateIndex_alone (client : Client) (s : Store) :
  fitViewCalls (onInit client s)
  = (fitViewCalls s
     + if isFulfilled (read_stateIndex client) then 1 else 0)%nat.
Proof.
  rewrite onInit_fitViewCalls.
  destruct (isFulfilled (read_stateIndex client)); lia.
Qed.

(** X2. When one of the two counter reads is rejected, no record is fetched:
    the nodes and the edges of the graph are left exactly as they were, also
    when the state counter was read and states are there to be read. *)
Theorem failed_counter_fetches_nothing (client : Client) (s : Store)
  (Hfail : isFulfilled (read_stateIndex client)
           && isFulfilled (read_transitionIndex client) = false) :
  nodes (onInit client s) = nodes s /\ edges (onInit client s) = edges s.
Proof.
  rewrite onInit_closed.
  destruct (read_stateIndex client); [|now split].
  destruct (read_transitionIndex client); [discriminate | now split].
Qed.

Lemma failed_counter_fetches_nothing_witness :
  read_stateIndex transitionCountFails = Fulfilled 3 /\
  isFulfilled (read_states transitionCountFails 1) = true /\
  nodes (onInit transitionCountFails emptyStore) = [].
Proof.
  split; [reflexivity|]. split; [reflexivity|].
  exact (proj1 (failed_counter_fetches_nothing transitionCountFails emptyStore
                  eq_refl)).
Defined.

(** ** Interrupted runs *)

Section InterruptedRun.

Variables (client : Client) (N M : Z) (s : Store).
Hypothesis Hstates : read_stateIndex client = Fulfilled N.
Hypothesis Htransitions : read_transitionIndex client = Fulfilled M.

Lemma interrupted_nodes :
  isFulfilled (statesOutcome client (roundsTo N) 1 50) = false \/
  isFulfilled (transitionsOutcome client (roundsTo M) 1) = false ->
  nodes (onInit client s)
  = (nodes s ++ fetchedNodes client (roundsTo N) 1 50)%list.
Proof.
  intros H. rewrite onInit_closed, Hstates, Htransitions. cbv zeta.
  destruct (statesOutcome client (roundsTo N) 1 50); [|reflexivity].
  destruct (transitionsOutcome client (roundsTo M) 1); [|reflexivity].
  now destruct H.
Qed.

Lemma interrupted_flow :
  isFulfilled (statesOutcome client (roundsTo N) 1 50) = false \/
  isFulfilled (transitionsOutcome client (roundsTo M) 1) = false ->
  flowNodes (onInit client s)
  = receiveNodes (flowNodes s)
                 (nodes s ++ fetchedNodes client (roundsTo N) 1 50).
Proof.
  intros H. rewrite onInit_closed, Hstates, Htransitions. cbv zeta.
  cbn [receive fitView set_flowNodes nodes edges fitViewCalls flowNodes].
  destruct (statesOutcome client (roundsTo N) 1 50).
  - destruct (transitionsOutcome client (roundsTo M) 1) eqn:HoT;
      [now destruct H|].
    destruct (roundsTo M); [discriminate|].
    cbn [receive set_flowNodes nodes edges fitViewCalls flowNodes].
    rewrite receiveNodes_twice, receive_after_states.
    apply receiveNodes_app.
  - cbn [receive set_flowNodes nodes edges fitViewCalls flowNodes].
    rewrite receive_after_states. apply receiveNodes_app.
Qed.

(** X3. When a record read is rejected, nothing is classified: the nodes
    that were in the graph keep their type, and every node that the run
    appended is left without a type.  The library keeps the nodes it held,
    typed as they were, and receives the others as they were pushed. *)
Theorem interrupted_run_is_unclassified
  (Hrejected :
     (exists i, 1 <= i < N /\ isFulfilled (read_states client i) = false) \/
     (exists i, 1 <= i < M /\ isFulfilled (read_transitions client i) = false)) :
  firstn (List.length (nodes s)) (nodes (onInit client s)) = nodes s /\
  (forall n, In n (skipn (List.length (nodes s)) (nodes (onInit client s))) ->
             node_type n = None) /\
  flowNodes (onInit client s)
  = receiveNodes (flowNodes s) (nodes (onInit client s)).
Proof.
  assert (Hout :
    isFulfilled (statesOutcome client (roundsTo N) 1 50) = false \/
    isFulfilled (transitionsOutcome client (roundsTo M) 1) = false).
  { destruct Hrejected as [(i & Hi & Hr)|(i & Hi & Hr)]; [left|right].
    + destruct (isFulfilled (statesOutcome client (roundsTo N) 1 50)) eqn:Ho;
        [|reflexivity].
      rewrite statesOutcome_fulfilled in Ho.
      rewrite <- Hr. symmetry. apply Ho. unfold roundsTo. lia.
    + destruct (isFulfilled (transitionsOutcome client (roundsTo M) 1)) eqn:Ho;
        [|reflexivity].
      rewrite transitionsOutcome_fulfilled in Ho.
      rewrite <- Hr. symmetry. apply Ho. unfold roundsTo. lia. }
  rewrite interrupted_flow, interrupted_nodes by assumption.
  rewrite firstn_length_app, skipn_length_app.
  split; [reflexivity|]. split; [|reflexivity].
  intros n. apply fetchedNodes_untyped.
Qed.

(** X4. The states loop stops at the first rejected read: when [states(k)]
    is the first one rejected, the run appends the k - 1 nodes read before it
    and not a single edge, whatever the transition reads would answer. *)
Theorem first_rejected_state_stops_the_run (k : Z)
  (Hk : 1 <= k < N)
  (Hrejected : isFulfilled (read_states client k) = false)
  (Hbefore : forall j, 1 <= j < k -> isFulfilled (read_states client j) = true) :
  List.length (nodes (onInit client s))
  = (List.length (nodes s) + Z.to_nat (k - 1))%nat /\
  edges (onInit client s) = edges s.
Proof.
  destruct (fetchedNodes_first_rejection client (roundsTo N) 1 50 k)
    as [Hlen Hout]; [unfold roundsTo; lia | assumption | assumption |].
  split.
  - rewrite interrupted_nodes by (left; exact Hout).
    rewrite length_app, Hlen. reflexivity.
  - rewrite onInit_edges. unfold edgesOf. rewrite Hstates, Htransitions.
    destruct (statesOutcome client (roundsTo N) 1 50); [discriminate|].
    apply app_nil_r.
Qed.

(** X5. The transitions loop stops at the first rejected read: when every
    state is read and [transitions(k)] is the first read rejected, the run
    appends all the N - 1 nodes and the k - 1 edges read before it. *)
Theorem first_rejected_transition_stops_the_run (k : Z)
  (HreadS : forall j, 1 <= j < N -> isFulfilled (read_states client j) = true)
  (Hk : 1 <= k < M)
  (Hrejected : isFulfilled (read_transitions client k) = false)
  (Hbefore : forall j, 1 <= j < k ->
                       isFulfilled (read_transitions client j) = true) :
  List.length (nodes (onInit client s))
  = (List.length (nodes s) + Z.to_nat (N - 1))%nat /\
  List.length (edges (onInit client s))
  = (List.length (edges s) + Z.to_nat (k - 1))%nat.
Proof.
  destruct (fetchedEdges_first_rejection client (roundsTo M) 1 k)
    as [Hlen Hout]; [unfold roundsTo; lia | assumption | assumption |].
  destruct (fetchedNodes_full client (roundsTo N) 1 50) as [HlenN HoutN].
  { intros j Hj. apply HreadS. unfold roundsTo in Hj. lia. }
  split.
  - rewrite interrupted_nodes by (right; exact Hout).
    rewrite length_app, HlenN. reflexivity.
  - rewrite onInit_edges. unfold edgesOf. rewrite Hstates, Htransitions, HoutN.
    rewrite length_app, Hlen. reflexivity.
Qed.

End InterruptedRun.

Lemma interrupted_run_is_unclassified_witness :
  isFulfilled (read_states secondStateFails 2) = false /\
  forall n, In n (nodes (onInit secondStateFails emptyStore)) ->
            node_type n = None.
Proof.
  split; [reflexivity|].
  assert (Hrejected :
    (exists i, 1 <= i < 4 /\
               isFulfilled (read_states secondStateFails i) = false) \/
    (exists i, 1 <= i < 3 /\
               isFulfilled (read_transitions secondStateFails i) = false)).
  { left. exists 2. split; [lia | reflexivity]. }
  exact (proj1 (proj2 (interrupted_run_is_unclassified secondStateFails 4 3
                         emptyStore eq_refl eq_refl Hrejected))).
Defined.

Lemma first_rejected_state_stops_the_run_witness :
  List.length (nodes (onInit secondStateFails emptyStore)) = 1%nat /\
  edges (onInit secondStateFails emptyStore) = [].
Proof.
  apply (first_rejected_state_stops_the_run secondStateFails 4 3 emptyStore
           eq_refl eq_refl 2).
  - lia.
  - reflexivity.
  - intros j Hj. replace j with 1 by lia. reflexivity.
Defined.

Lemma first_rejected_transition_stops_the_run_witness :
  List.length (nodes (onInit secondTransitionFails emptyStore)) = 2%nat /\
  List.length (edges (onInit secondTransitionFails emptyStore)) = 1%nat.
Proof.
  apply (first_rejected_transition_stops_the_run secondTransitionFails 3 3
           emptyStore eq_refl eq_refl 2).
  - intros j _. reflexivity.
  - lia.
  - reflexivity.
  - intros j Hj. replace j with 1 by lia. reflexivity.
Defined.

(** X6. A run depends on the ledger only through the two counters and the
    records of the indices from 1 to below each counter: two clients that
    agree on these give the same graph.  Index 0 and the index equal to a
    counter are never read. *)
Theorem run_reads_only_below_counters (c1 c2 : Client) (N M : Z) (s : Store)
  (Hstates1 : read_stateIndex c1 = Fulfilled N)
  (Hstates2 : read_stateIndex c2 = Fulfilled N)
  (Htransitions1 : read_transitionIndex c1 = Fulfilled M)
  (Htransitions2 : read_transitionIndex c2 = Fulfilled M)
  (HagreeS : forall i, 1 <= i < N -> read_states c1 i = read_states c2 i)
  (HagreeT : forall i, 1 <= i < M -> read_transitions c1 i = read_transitions c2 i) :
  onInit c1 s = onInit c2 s.
Proof.
  assert (HS : forall j, 1 <= j < 1 + Z.of_nat (roundsTo N) ->
                         read_states c1 j = read_states c2 j).
  { intros j Hj. apply HagreeS. unfold roundsTo in Hj. lia. }
  rewrite !onInit_closed.
  rewrite Hstates1, Hstates2, Htransitions1, Htransitions2. cbv zeta.
  destruct (fetchedNodes_ext c1 c2 (roundsTo N) 1 50 HS) as [-> ->].
  rewrite (statesFlow_ext c1 c2 (roundsTo N) 1 50 _ _ HS).
  destruct (fetchedEdges_ext c1 c2 (roundsTo M) 1) as [-> ->].
  { intros j Hj. apply HagreeT. unfold roundsTo in Hj. lia. }
  reflexivity.
Qed.

Lemma run_reads_only_below_counters_witness :
  isFulfilled (read_states boundedClient 3) = false /\
  isFulfilled (read_states scenarioClient 3) = true /\
  onInit boundedClient emptyStore = onInit scenarioClient emptyStore.
Proof.
  split; [reflexivity|]. split; [reflexivity|].
  apply (run_reads_only_below_counters boundedClient scenarioClient 3 2
           emptyStore eq_refl eq_refl eq_refl eq_refl).
  - intros i Hi. cbn [read_states boundedClient scenarioClient].
    replace ((1 <=? i) && (i <? 3)) with true; [reflexivity|].
    symmetry. apply andb_true_iff. split; [apply Z.leb_le | apply Z.ltb_lt]; lia.
  - intros i Hi. cbn [read_transitions boundedClient scenarioClient].
    replace ((1 <=? i) && (i <? 2)) with true; [reflexivity|].
    symmetry. apply andb_true_iff. split; [apply Z.leb_le | apply Z.ltb_lt]; lia.
Defined.

(** ** Classification of every node *)

Lemma retype_distinct f seen l :
  NoDup (map node_id l) ->
  retype f seen l
  = map (fun n => if mem (node_id n) seen then n else assign f n) l.
Proof.
  revert seen. induction l as [|n l IH]; intros seen Hnd; [reflexivity|].
  cbn [retype map]. inversion Hnd as [|x xs Hnotin Hnd']; subst.
  f_equal. rewrite IH by assumption. apply map_ext_in.
  intros m Hm. cbn [mem existsb]. fold (mem (node_id m) seen).
  destruct (String.eqb_spec (node_id m) (node_id n)) as [E|_]; [|reflexivity].
  exfalso. apply Hnotin. rewrite <- E. now apply in_map.
Qed.

Lemma adjustView_distinct s :
  NoDup (map node_id (flowNodes s)) ->
  (forall id, In id (map node_id (flowNodes s)) ->
              In id (map node_id (nodes s))) ->
  flowNodes (adjustView s) = map (assign (role (edges s))) (flowNodes s).
Proof.
  intros Hnd Hin. rewrite adjustView_closed. cbn [flowNodes].
  rewrite retype_distinct by assumption. apply map_ext_in.
  intros n Hn. cbn [mem existsb]. unfold assign.
  rewrite roleAmong_role; [reflexivity|].
  apply mem_In. apply Hin. now apply in_map.
Qed.

Lemma role_output E id :
  role E id = Some "output" <-> (forall e, In e E -> edge_source e <> id).
Proof.
  unfold role. destruct (hasOutgoing E id) eqn:Ho.
  - apply hasOutgoing_spec in Ho. destruct Ho as (e & He & Hsrc). split.
    + destruct (id =? "1")%string; discriminate.
    + intros H. now apply H in He.
  - split; [|reflexivity]. intros _ e He Hsrc.
    assert (hasOutgoing E id = true) by (apply hasOutgoing_spec; eauto).
    congruence.
Qed.

Lemma role_input E id :
  role E id = Some "input" <->
  id = "1" /\ exists e, In e E /\ edge_source e = id.
Proof.
  unfold role. rewrite <- hasOutgoing_spec.
  destruct (hasOutgoing E id); destruct (String.eqb_spec id "1");
    split; try discriminate; try tauto; intros [? ?]; congruence.
Qed.

Lemma role_none E id :
  role E id = None <->
  id <> "1" /\ exists e, In e E /\ edge_source e = id.
Proof.
  unfold role. rewrite <- hasOutgoing_spec.
  destruct (hasOutgoing E id); destruct (String.eqb_spec id "1");
    split; try discriminate; try tauto; intros [? ?]; congruence.
Qed.

Lemma assign_type_untyped f n :
  node_type n = None -> node_type (assign f n) = f (node_id n).
Proof. unfold assign. intros H. now destruct (f (node_id n)). Qed.

(** X7. When the node ids are pairwise distinct and the library holds the
    nodes of the array (it has received every node pushed), [adjustView]
    settles the type of every node: "output" when no edge leaves the node,
    "input" when an edge leaves it and its id is "1", and the type it had
    before otherwise. *)
Theorem adjustView_classifies_every_node (s : Store) (k : nat) (n : Node)
  (Hdistinct : NoDup (map node_id (nodes s)))
  (Hreceived : map node_id (flowNodes s) = map node_id (nodes s))
  (Hk : nth_error (flowNodes s) k = Some n) :
  exists n',
    nth_error (flowNodes (adjustView s)) k = Some n' /\
    ((forall e, In e (edges s) -> edge_source e <> node_id n) ->
     node_type n' = Some "output") /\
    ((exists e, In e (edges s) /\ edge_source e = node_id n) ->
     node_id n = "1" -> node_type n' = Some "input") /\
    ((exists e, In e (edges s) /\ edge_source e = node_id n) ->
     node_id n <> "1" -> node_type n' = node_type n).
Proof.
  exists (assign (role (edges s)) n). split.
  - rewrite adjustView_distinct.
    + now apply map_nth_error.
    + now rewrite Hreceived.
    + intros id. now rewrite Hreceived.
  - unfold assign. split; [|split].
    + intros H. apply role_output in H. now rewrite H.
    + intros He Hid.
      assert (H : role (edges s) (node_id n) = Some "input")
        by (apply role_input; split; [assumption | exact He]).
      now rewrite H.
    + intros He Hid.
      assert (H : role (edges s) (node_id n) = None)
        by (apply role_none; split; [assumption | exact He]).
      now rewrite H.
Qed.

Lemma adjustView_classifies_every_node_witness :
  NoDup (map node_id (nodes scenarioGraph)) /\
  map node_id (flowNodes scenarioGraph) = map node_id (nodes scenarioGraph) /\
  exists n',
    nth_error (flowNodes (adjustView scenarioGraph)) 1 = Some n' /\
    node_type n' = Some "output".
Proof.
  assert (Hdistinct : NoDup (map node_id (nodes scenarioGraph))).
  { repeat constructor; simpl; intuition discriminate. }
  split; [exact Hdistinct|]. split; [reflexivity|].
  destruct (adjustView_classifies_every_node scenarioGraph 1
              (mkNode "2" "state" (mkPosition 250 250) "light" None)
              Hdistinct eq_refl eq_refl)
    as (n' & Hnth & Hout & _).
  exists n'. split; [exact Hnth|].
  apply Hout. intros e [<-|[]]. discriminate.
Defined.

(** X8. Edges whose source is the id of no node have no effect on the
    classification: adding them to the graph leaves every type as it would
    be without them, in the array and among the nodes of the library. *)
Theorem dangling_sources_do_not_classify (s : Store) (extra : list Edge)
  (Hdangling : forall e, In e extra ->
                         ~ In (edge_source e) (map node_id (nodes s))) :
  nodes (adjustView (addEdges extra s)) = nodes (adjustView s) /\
  flowNodes (adjustView (addEdges extra s)) = flowNodes (adjustView s).
Proof.
  rewrite !adjustView_closed. cbn [nodes edges flowNodes addEdges].
  split; [reflexivity|].
  apply retype_ext. intros j _ _. unfold roleAmong, hasOutgoing.
  rewrite existsb_app.
  destruct (mem j (map node_id (nodes s))) eqn:Hmem;
    [|now rewrite !andb_false_r].
  replace (existsb (fun edge => (edge_source edge =? j)%string) extra)
    with false; [now rewrite orb_false_r|].
  symmetry. apply not_true_is_false. intros H.
  apply existsb_exists in H. destruct H as (e & He & Hsrc).
  apply String.eqb_eq in Hsrc. subst j.
  apply (Hdangling e He). now apply mem_In.
Qed.

Lemma dangling_sources_do_not_classify_witness :
  flowNodes (adjustView
               (addEdges [mkEdge 9 (JString "lost") "7" "1" false ArrowClosed]
                         scenarioGraph))
  = flowNodes (adjustView scenarioGraph).
Proof.
  apply dangling_sources_do_not_classify.
  intros e [<-|[]]. simpl. intuition discriminate.
Defined.

(** X9. The classification depends on the edges only through the set of
    their sources: two graphs with the same nodes, in which the same ids
    have an outgoing edge, are classified alike, whatever the order, number,
    ids, labels and targets of the edges. *)
Theorem classification_depends_on_sources_only (s s' : Store)
  (Hnodes : nodes s' = nodes s)
  (Hsources : forall id,
      (exists e, In e (edges s') /\ edge_source e = id) <->
      (exists e, In e (edges s) /\ edge_source e = id)) :
  nodes (adjustView s') = nodes (adjustView s) /\
  (flowNodes s' = flowNodes s ->
   flowNodes (adjustView s') = flowNodes (adjustView s)).
Proof.
  rewrite !adjustView_closed. cbn [nodes flowNodes]. rewrite Hnodes.
  split; [reflexivity|]. intros ->.
  apply retype_ext. intros j _ _. unfold roleAmong.
  replace (hasOutgoing (edges s') j) with (hasOutgoing (edges s) j);
    [reflexivity|].
  apply eq_true_iff_eq. rewrite !hasOutgoing_spec. symmetry. apply Hsources.
Qed.

Lemma classification_depends_on_sources_only_witness :
  flowNodes (adjustView
               (mkStore (nodes scenarioGraph)
                        [mkEdge 5 (JString "back") "1" "1" false Arrow;
                         mkEdge 5 (JString "again") "1" "9" true ArrowClosed]
                        0 (flowNodes scenarioGraph)))
  = flowNodes (adjustView scenarioGraph).
Proof.
  refine (proj2 (classification_depends_on_sources_only scenarioGraph
                   (mkStore (nodes scenarioGraph)
                      [mkEdge 5 (JString "back") "1" "1" false Arrow;
                       mkEdge 5 (JString "again") "1" "9" true ArrowClosed]
                      0 (flowNodes scenarioGraph))
                   eq_refl _) eq_refl).
  intros id. cbn [edges]. split; intros (e & He & Hsrc).
  - exists (mkEdge 1 (JString "go") "1" "2" true ArrowClosed).
    split; [left; reflexivity|].
    destruct He as [<-|[<-|[]]]; exact Hsrc.
  - exists (mkEdge 5 (JString "back") "1" "1" false Arrow).
    split; [left; reflexivity|].
    destruct He as [<-|[]]; exact Hsrc.
Defined.

(** X10. [adjustView] writes no type but "input" and "output", and never
    removes one: each node keeps the type it had or receives one of the
    two.  The nodes of the array are not written to; those of the library
    are. *)
Theorem adjustView_writes_input_or_output (s : Store) (k : nat) :
  (forall n', nth_error (nodes (adjustView s)) k = Some n' ->
     exists n,
       nth_error (nodes s) k = Some n /\
       (node_type n' = node_type n \/
        node_type n' = Some "input" \/ node_type n' = Some "output")) /\
  (forall n', nth_error (flowNodes (adjustView s)) k = Some n' ->
     exists n,
       nth_error (flowNodes s) k = Some n /\
       (node_type n' = node_type n \/
        node_type n' = Some "input" \/ node_type n' = Some "output")).
Proof.
  split; intros n' Hk.
  - rewrite adjustView_nodes in Hk. exists n'. split; [assumption | now left].
  - rewrite adjustView_closed in Hk. cbn [flowNodes] in Hk.
    revert k Hk. generalize (@nil string) as seen.
    induction (flowNodes s) as [|n l IH]; intros seen k Hk; [now destruct k|].
    cbn [retype] in Hk. destruct k as [|k]; cbn [nth_error] in *.
    + exists n. split; [reflexivity|]. injection Hk as <-.
      destruct (mem (node_id n) seen); [now left|].
      unfold assign, roleAmong.
      destruct (negb (hasOutgoing (edges s) (node_id n))
                && mem (node_id n) (map node_id (nodes s)));
        [|destruct (node_id n =? "1")%string]; cbn; tauto.
    + now apply IH in Hk.
Qed.

Lemma adjustView_writes_input_or_output_witness :
  exists n,
    nth_error (flowNodes scenarioGraph) 0 = Some n /\
    (Some "input" = node_type n \/
     Some "input" = Some "input" \/ Some "input" = Some "output").
Proof.
  exact (proj2 (adjustView_writes_input_or_output scenarioGraph 0)
           (mkNode "1" "state" (mkPosition 250 150) "light" (Some "input"))
           eq_refl).
Defined.

(** ** Complete runs *)

Lemma app_last_receive (held : list Node) (P : list Node) (x : Node) :
  List.length held = List.length P ->
  receiveNodes held (P ++ [x]) = (held ++ [x])%list.
Proof.
  intros H. unfold receiveNodes. rewrite H.
  now rewrite skipn_length_app.
Qed.

Section CompleteRun.

Variables (client : Client) (N M : Z).
Hypothesis Hstates : read_stateIndex client = Fulfilled N.
Hypothesis Htransitions : read_transitionIndex client = Fulfilled M.
Hypothesis HreadS :
  forall i, 1 <= i < N -> isFulfilled (read_states client i) = true.
Hypothesis HreadT :
  forall i, 1 <= i < M -> isFulfilled (read_transitions client i) = true.

Lemma complete_outcomes :
  isFulfilled (statesOutcome client (roundsTo N) 1 50) = true /\
  isFulfilled (transitionsOutcome client (roundsTo M) 1) = true.
Proof.
  split.
  - apply statesOutcome_fulfilled. intros j Hj. apply HreadS.
    unfold roundsTo in Hj. lia.
  - apply transitionsOutcome_fulfilled. intros j Hj. apply HreadT.
    unfold roundsTo in Hj. lia.
Qed.

Lemma fetchedNodes_distinct :
  NoDup (map node_id (fetchedNodes client (roundsTo N) 1 50)).
Proof.
  rewrite fetchedNodes_ids. apply NoDup_map_inj.
  - apply Number_toString_inj.
  - apply indices_NoDup.
Qed.

(** A complete run from the empty store in which a transition is read: the
    fetched edges, and for the library the fetched nodes with the type that
    the edges give them. *)
Lemma complete_run :
  2 <= M ->
  edges (onInit client emptyStore) = fetchedEdges client (roundsTo M) 1 /\
  flowNodes (onInit client emptyStore)
  = map (assign (role (fetchedEdges client (roundsTo M) 1)))
        (fetchedNodes client (roundsTo N) 1 50).
Proof.
  intros HM. destruct complete_outcomes as [HoS HoT].
  rewrite onInit_closed, Hstates, Htransitions. cbv zeta.
  destruct (statesOutcome client (roundsTo N) 1 50); [|discriminate].
  destruct (transitionsOutcome client (roundsTo M) 1); [|discriminate].
  destruct (roundsTo M) as [|m] eqn:Hm; [unfold roundsTo in Hm; lia|].
  cbn [receive fitView set_flowNodes emptyStore nodes edges fitViewCalls
       flowNodes app].
  rewrite adjustView_nodes, adjustView_edges.
  cbn [nodes edges]. split; [reflexivity|].
  assert (Hreceived :
    receiveNodes (statesFlow client (roundsTo N) 1 50 [] (receiveNodes [] []))
                 (fetchedNodes client (roundsTo N) 1 50)
    = fetchedNodes client (roundsTo N) 1 50)
    by exact (receive_after_states client (roundsTo N) 1 50 [] []).
  rewrite Hreceived.
  rewrite adjustView_distinct; cbn [nodes edges flowNodes].
  - apply receiveNodes_full. now rewrite length_map.
  - apply fetchedNodes_distinct.
  - tauto.
Qed.

(** X11. After a complete run from the empty graph in which at least one
    transition is read (a transition counter of 2 or more), every node is
    typed by its outgoing edges: "output" exactly when no edge of the graph
    leaves it, "input" exactly when it is node "1" and an edge leaves it,
    and no type exactly when it is another node and an edge leaves it. *)
Theorem complete_run_types (n : Node)
  (HM : 2 <= M)
  (Hn : In n (flowNodes (onInit client emptyStore))) :
  (node_type n = Some "output" <->
   forall e, In e (edges (onInit client emptyStore)) ->
             edge_source e <> node_id n) /\
  (node_type n = Some "input" <->
   node_id n = "1" /\
   exists e, In e (edges (onInit client emptyStore)) /\
             edge_source e = node_id n) /\
  (node_type n = None <->
   node_id n <> "1" /\
   exists e, In e (edges (onInit client emptyStore)) /\
             edge_source e = node_id n).
Proof.
  destruct (complete_run HM) as [He Hnodes]. rewrite He. rewrite Hnodes in Hn.
  apply in_map_iff in Hn. destruct Hn as (n0 & <- & Hn0).
  apply fetchedNodes_untyped in Hn0.
  rewrite assign_type_untyped by assumption. rewrite assign_id.
  split; [apply role_output | split; [apply role_input | apply role_none]].
Qed.

(** X12. With at least two states counted and no transition to read (a
    transition counter of 0 or 1), [adjustView] runs in the turn of the
    script that pushed the last node, which the library has not received:
    after a complete run from the empty graph every node is an output,
    node "1" included, except the last one, which has no type. *)
Theorem no_transition_last_node_untyped
  (HN : 2 <= N) (HM : M <= 1) :
  map node_type (flowNodes (onInit client emptyStore))
  = (repeat (Some "output") (Z.to_nat (N - 2)) ++ [None])%list /\
  map node_id (flowNodes (onInit client emptyStore))
  = map node_id (nodes (onInit client emptyStore)).
Proof.
  destruct complete_outcomes as [HoS HoT].
  pose proof fetchedNodes_distinct as Hnd.
  pose proof (fetchedNodes_length_fulfilled client (roundsTo N) 1 50 HoS) as Hlen.
  rewrite onInit_closed, Hstates, Htransitions. cbv zeta.
  destruct (roundsTo N) as [|r] eqn:Hr; [unfold roundsTo in Hr; lia|].
  assert (Hflow := statesFlow_fulfilled client r 1 50 [] [] HoS).
  assert (Huntyped := fetchedNodes_untyped client (S r) 1 50).
  destruct (statesOutcome client (S r) 1 50); [|discriminate].
  destruct (transitionsOutcome client (roundsTo M) 1); [|discriminate].
  replace (roundsTo M) with O by (unfold roundsTo; lia).
  cbn [receive fitView set_flowNodes emptyStore nodes edges fitViewCalls
       flowNodes app fetchedEdges] in *.
  rewrite adjustView_nodes. cbn [nodes].
  destruct (exists_last (l := fetchedNodes client (S r) 1 50)) as (P & x & HF).
  { intros E. now rewrite E in Hlen. }
  rewrite HF in *. rewrite removelast_last, receiveNodes_nil_l in Hflow.
  change (receiveNodes (@nil Node) []) with (@nil Node).
  rewrite Hflow.
  rewrite adjustView_distinct; cbn [nodes edges flowNodes].
  - rewrite app_last_receive by now rewrite length_map.
    rewrite !map_app, !map_map. cbn [map].
    rewrite length_app in Hlen. cbn [List.length] in Hlen.
    split.
    + f_equal.
      * replace (Z.to_nat (N - 2)) with (List.length P)
          by (unfold roundsTo in Hr; lia).
        clear. induction P as [|p P IH]; [reflexivity|].
        cbn [map List.length repeat]. now rewrite IH.
      * f_equal. apply Huntyped. apply in_or_app. right. now left.
    + f_equal; apply map_ext; intros p; apply assign_id.
  - rewrite map_app in Hnd. now apply NoDup_app_remove_r in Hnd.
  - intros id Hid. rewrite map_app. apply in_or_app. now left.
Qed.

End CompleteRun.

Lemma complete_run_types_witness :
  In (mkNode "2" "state" (mkPosition 250 250) "light" (Some "output"))
     (flowNodes (onInit scenarioClient emptyStore)) /\
  forall e, In e (edges (onInit scenarioClient emptyStore)) ->
            edge_source e <> "2".
Proof.
  assert (Hn : In (mkNode "2" "state" (mkPosition 250 250) "light"
                          (Some "output"))
                  (flowNodes (onInit scenarioClient emptyStore)))
    by (right; left; reflexivity).
  split; [exact Hn|].
  apply (proj1 (complete_run_types scenarioClient 3 2 eq_refl eq_refl
                  (fun i _ => eq_refl) (fun i _ => eq_refl) _
                  ltac:(lia) Hn)).
  reflexivity.
Defined.

Lemma no_transition_last_node_untyped_witness :
  map node_type (flowNodes (onInit isolatedStates emptyStore))
  = [Some "output"; Some "output"; None] /\
  map node_id (flowNodes (onInit isolatedStates emptyStore))
  = map node_id (nodes (onInit isolatedStates emptyStore)).
Proof.
  apply (no_transition_last_node_untyped isolatedStates 4 1 eq_refl eq_refl
           (fun i _ => eq_refl)).
  - intros i Hi. lia.
  - lia.
  - lia.
Defined.

(** X13. The classification in terms of the ledger.  When every read is
    fulfilled, at least one transition is read (a transition counter of 2
    or more) and the second component of each transition tuple is an
    integer (a bigint or a number), the node of state k is marked "output"
    exactly when no transition read has k as its source: comparing the ids
    as strings agrees with comparing the integers. *)
Theorem output_iff_no_transition_from_state
  (client : Client) (N M : Z) (tr : Z -> TransitionTuple) (src : Z -> Z)
  (k : Z) (n : Node)
  (Hstates : read_stateIndex client = Fulfilled N)
  (Htransitions : read_transitionIndex client = Fulfilled M)
  (HM : 2 <= M)
  (HreadS : forall i, 1 <= i < N -> isFulfilled (read_states client i) = true)
  (HreadT : forall i, 1 <= i < M -> read_transitions client i = Fulfilled (tr i))
  (Hsrc : forall i, 1 <= i < M ->
                    transition_1 (tr i) = JBigInt (src i) \/
                    transition_1 (tr i) = JNumber (src i))
  (Hk : 1 <= k < N)
  (Hn : nth_error (flowNodes (onInit client emptyStore)) (Z.to_nat (k - 1))
        = Some n) :
  node_type n = Some "output" <-> forall i, 1 <= i < M -> src i <> k.
Proof.
  destruct (complete_run client N M Hstates Htransitions HreadS) as [_ Hnodes];
    [intros i Hi; now rewrite HreadT | assumption |].
  rewrite Hnodes in Hn. rewrite nth_error_map in Hn.
  destruct (nth_error (fetchedNodes client (roundsTo N) 1 50) (Z.to_nat (k - 1)))
    as [n0|] eqn:Hn0; [|discriminate].
  injection Hn as <-.
  apply fetchedNodes_nth in Hn0. destruct Hn0 as (state & _ & ->).
  rewrite assign_type_untyped by reflexivity.
  cbn [makeNode node_id].
  replace (1 + Z.of_nat (Z.to_nat (k - 1))) with k by lia.
  rewrite role_output.
  destruct (fetchedEdges_full client (roundsTo M) 1 tr) as [-> _].
  { intros j Hj. apply HreadT. unfold roundsTo in Hj. lia. }
  assert (Hstr : forall i, 1 <= i < M ->
            toString (transition_1 (tr i)) = Number_toString (src i)).
  { intros i Hi. now destruct (Hsrc i Hi) as [-> | ->]. }
  split.
  - intros H i Hi E. apply (H (makeEdge i (tr i))).
    + apply in_map_iff. exists i. split; [reflexivity|].
      apply indices_In. unfold roundsTo. lia.
    + cbn [makeEdge edge_source]. rewrite Hstr by assumption. now rewrite E.
  - intros H e He Hsource. apply in_map_iff in He.
    destruct He as (i & <- & Hi). apply indices_In in Hi.
    unfold roundsTo in Hi.
    cbn [makeEdge edge_source] in Hsource. rewrite Hstr in Hsource by lia.
    apply Number_toString_inj in Hsource. apply (H i); [lia | assumption].
Qed.

Lemma output_iff_no_transition_from_state_witness :
  nth_error (flowNodes (onInit scenarioClient emptyStore)) 1
  = Some (mkNode "2" "state" (mkPosition 250 250) "light" (Some "output")) /\
  forall i, 1 <= i < 2 -> 1 <> 2.
Proof.
  split; [reflexivity|].
  apply (proj1 (output_iff_no_transition_from_state scenarioClient 3 2
    (fun _ => mkTransitionTuple (JString "go") (JBigInt 1) (JBigInt 2)
                                (JBoolean true))
    (fun _ => 1) 2
    (mkNode "2" "state" (mkPosition 250 250) "light" (Some "output"))
    eq_refl eq_refl ltac:(lia) (fun i _ => eq_refl) (fun i _ => eq_refl)
    (fun i _ => or_introl eq_refl) ltac:(lia) eq_refl)).
  reflexivity.
Defined.

(** ** What every run keeps *)

(** X14. Every node that a run appends, at position j after the nodes
    present before, comes from the tuple fetched for the index i = j + 1:
    its id is the decimal notation of i, its label is [tuple[0].toString()],
    and its class is "light"; this holds in interrupted runs and after
    classification alike. *)
Theorem node_fields (client : Client) (s : Store) (j : nat) (n : Node)
  (Hn : nth_error (nodes (onInit client s)) (List.length (nodes s) + j) = Some n) :
  exists tuple,
    read_states client (Z.of_nat j + 1) = Fulfilled tuple /\
    node_id n = Number_toString (Z.of_nat j + 1) /\
    node_label n = toString (state_0 tuple) /\
    node_class n = "light".
Proof.
  pose (p := fun n => (node_id n, node_label n, node_class n)).
  apply (map_nth_error p) in Hn.
  rewrite (onInit_map p) in Hn.
  rewrite nth_error_app2 in Hn by (rewrite length_map; lia).
  rewrite length_map in Hn.
  replace (List.length (nodes s) + j - List.length (nodes s))%nat with j in Hn by lia.
  rewrite nth_error_map in Hn.
  destruct (nth_error (nodesOf client) j) as [n0|] eqn:Hn0; [|discriminate].
  injection Hn as Hid Hlabel Hclass.
  assert (H : exists rounds, nth_error (fetchedNodes client rounds 1 50) j = Some n0).
  { unfold nodesOf in Hn0.
    destruct (read_stateIndex client) as [N|]; [|now destruct j].
    destruct (read_transitionIndex client); [|now destruct j].
    now exists (roundsTo N). }
  destruct H as [rounds H].
  apply fetchedNodes_nth in H. destruct H as (tuple & Hread & ->).
  exists tuple. replace (Z.of_nat j + 1) with (1 + Z.of_nat j) by lia.
  split; [assumption|]. rewrite <- Hid, <- Hlabel, <- Hclass. now repeat split.
Qed.

Lemma node_fields_witness :
  exists tuple,
    read_states secondStateFails 1 = Fulfilled tuple /\
    "1" = Number_toString 1 /\
    "state" = toString (state_0 tuple) /\
    "light" = "light".
Proof.
  exact (node_fields secondStateFails emptyStore 0
           (mkNode "1" "state" (mkPosition 250 150) "light" None) eq_refl).
Defined.

(** X15. A run only appends: the edges that were in the graph stay first
    and unchanged, and the nodes that were in the graph stay first, in
    order, with their id, label, position and class. *)
Theorem run_is_append_only (client : Client) (s : Store) :
  firstn (List.length (edges s)) (edges (onInit client s)) = edges s /\
  map (fun n => (node_id n, node_label n, node_position n, node_class n))
      (firstn (List.length (nodes s)) (nodes (onInit client s)))
  = map (fun n => (node_id n, node_label n, node_position n, node_class n))
        (nodes s).
Proof.
  split.
  - rewrite onInit_edges. apply firstn_length_app.
  - rewrite <- firstn_map. rewrite onInit_map.
    rewrite <- (length_map
      (fun n => (node_id n, node_label n, node_position n, node_class n))
      (nodes s)) at 1.
    apply firstn_length_app.
Qed.

(** X16. However the reads settle, a run appends at most N - 1 nodes and at
    most M - 1 edges, N and M being the counters read; it appends none when
    the counter read is rejected. *)
Theorem run_appends_at_most_the_counters (client : Client) (s : Store) :
  (List.length (nodes (onInit client s))
   <= List.length (nodes s)
      + match read_stateIndex client with
        | Fulfilled N => Z.to_nat (N - 1)
        | Rejected _ => 0
        end)%nat /\
  (List.length (edges (onInit client s))
   <= List.length (edges s)
      + match read_transitionIndex client with
        | Fulfilled M => Z.to_nat (M - 1)
        | Rejected _ => 0
        end)%nat.
Proof.
  split.
  - rewrite <- (length_map node_id (nodes (onInit client s))).
    rewrite onInit_map. rewrite length_app, !length_map.
    apply Nat.add_le_mono_l. unfold nodesOf.
    destruct (read_stateIndex client) as [N|]; [|apply Nat.le_refl].
    destruct (read_transitionIndex client); [|apply Nat.le_0_l].
    apply fetchedNodes_length_le.
  - rewrite onInit_edges, length_app.
    apply Nat.add_le_mono_l. unfold edgesOf.
    destruct (read_stateIndex client) as [N|];
      [|destruct (read_transitionIndex client); apply Nat.le_0_l].
    destruct (read_transitionIndex client) as [M|]; [|apply Nat.le_refl].
    destruct (statesOutcome client (roundsTo N) 1 50); [|apply Nat.le_0_l].
    apply fetchedEdges_length_le.
Qed.

(** ** The library follows the array *)







